(** * CallAnalyzer: the call-analysis pipeline of [main.py]

    A shallow embedding of the decision logic of [main.py]: the stage
    segmenter [segment_call], the talk-ratio calculator
    [calculate_talk_ratio], the metrics extractor [extract_call_metrics],
    the session-state update of [process_audio] around [transcribe_audio],
    and the timeline loop of [render_results_tabs].

    Python values are modelled as follows.
    - [int] is [Z]; [float] is an IEEE 754 binary64 number, a [spec_float]
      of the Standard Library with [prec = 53] and [emax = 1024], and the
      arithmetic is the correctly rounded one of [SpecFloat].
    - [str] is [string]; the characters are the code points below 256.
    - a [list] is a [list]; a segment is a Python object, that is an
      identity together with the [dict] it holds, because [x in xs]
      compares by identity first and by [==] second.
    - a [dict] whose iteration order is observed ([call_stages]) is an
      association list in insertion order. *)

From Stdlib Require Import ZArith List String Ascii Bool Lia PeanoNat.
From Stdlib Require Import DecimalString.
From Stdlib Require Import SpecFloat.
Import ListNotations.

Local Open Scope Z_scope.

(** ** Binary64 floating point *)

Module F64.

Definition prec : Z := 53.
Definition emax : Z := 1024.

Definition float := spec_float.

(** [float(z)] for a Python int: the nearest binary64, ties to even.
    (Python raises [OverflowError] from [2^1024] on, where this model
    gives an infinity; the program converts list lengths and counts
    only.) *)
Definition of_Z (z : Z) : float := binary_normalize prec emax z 0 false.

Definition add : float -> float -> float := SFadd prec emax.
Definition sub : float -> float -> float := SFsub prec emax.
Definition mul : float -> float -> float := SFmul prec emax.
Definition div : float -> float -> float := SFdiv prec emax.
Definition eqb : float -> float -> bool := SFeqb.
Definition ltb : float -> float -> bool := SFltb.

Definition zero : float := S754_zero false.
Definition one : float := of_Z 1.

(** The literals of [segment_call]: the binary64 numbers nearest to
    0.15, 0.45, 0.65 and 0.85. *)
Definition c015 : float := S754_finite false 5404319552844595 (-55).
Definition c045 : float := S754_finite false 8106479329266893 (-54).
Definition c065 : float := S754_finite false 5854679515581645 (-53).
Definition c085 : float := S754_finite false 7656119366529843 (-53).

(** [int(x)]: truncation toward zero.  [None] stands for the
    [OverflowError] (infinities) and [ValueError] (NaN) of Python. *)
Definition trunc (x : float) : option Z :=
  match x with
  | S754_zero _ => Some 0
  | S754_finite s m e =>
      Some (cond_Zopp s
              (match e with
               | Z0 => Zpos m
               | Zpos _ => Zpos m * 2 ^ e
               | Zneg _ => Zpos m / 2 ^ (- e)
               end))
  | S754_infinity _ | S754_nan => None
  end.

End F64.

(** ** Python numbers, strings and lists *)

(** A Python number: an [int] or a [float]. *)
Inductive pynum : Type :=
| PInt (z : Z)
| PFloat (f : F64.float).

Definition to_float (x : pynum) : F64.float :=
  match x with
  | PInt z => F64.of_Z z
  | PFloat f => f
  end.

(** [x + y] and [x - y]: exact on two ints, binary64 otherwise. *)
Definition py_add (x y : pynum) : pynum :=
  match x, y with
  | PInt a, PInt b => PInt (a + b)
  | _, _ => PFloat (F64.add (to_float x) (to_float y))
  end.

Definition py_sub (x y : pynum) : pynum :=
  match x, y with
  | PInt a, PInt b => PInt (a - b)
  | _, _ => PFloat (F64.sub (to_float x) (to_float y))
  end.

(** [x == y] on numbers.  An int against a float is compared through the
    float of the int, which is exact for the ints of this program (0 and
    1). *)
Definition py_eqb (x y : pynum) : bool :=
  match x, y with
  | PInt a, PInt b => a =? b
  | _, _ => F64.eqb (to_float x) (to_float y)
  end.

Definition py_ltb (x y : pynum) : bool :=
  match x, y with
  | PInt a, PInt b => a <? b
  | _, _ => F64.ltb (to_float x) (to_float y)
  end.

(** [x / y], true division: always a float; [None] is the
    [ZeroDivisionError] raised for a zero divisor.  Two ints are divided
    through their floats, the quotient CPython returns for ints below
    [2^53]. *)
Definition py_truediv (x y : pynum) : option pynum :=
  if py_eqb y (PInt 0) then None
  else Some (PFloat (F64.div (to_float x) (to_float y))).

(** [max(x, y)]: the first argument unless the second is greater. *)
Definition py_max (x y : pynum) : pynum :=
  if py_ltb x y then y else x.

(** [int(x)] for a float.  Python raises on an infinity and on NaN; the
    value 0 stands there, and [segment_call] never reaches it for a list
    that fits in memory (see [int_scaled_exact]). *)
Definition py_int (x : F64.float) : Z :=
  match F64.trunc x with
  | Some z => z
  | None => 0
  end.

Definition len {A : Type} (l : list A) : Z := Z.of_nat (List.length l).

(** [l[lo:hi]] with step 1: a negative index counts from the end, and
    both are clamped to [0 .. len l]. *)
Definition slice_index (n i : Z) : Z :=
  if i <? 0 then Z.max 0 (i + n) else Z.min i n.

Definition py_slice {A : Type} (l : list A) (lo hi : option Z) : list A :=
  let n := len l in
  let a := match lo with Some i => slice_index n i | None => 0 end in
  let b := match hi with Some i => slice_index n i | None => n end in
  firstn (Z.to_nat (b - a)) (skipn (Z.to_nat a) l).

(** [l[-1]] on a non-empty list. *)
Definition py_last {A : Type} (l : list A) : option A :=
  match l with
  | [] => None
  | x :: l' => Some (last l' x)
  end.

(** [enumerate(l)]. *)
Definition enumerate {A : Type} (l : list A) : list (nat * A) :=
  combine (seq 0 (List.length l)) l.

Local Open Scope string_scope.

Definition code (c : ascii) : nat := nat_of_ascii c.

Definition between (lo hi n : nat) : bool := (lo <=? n)%nat && (n <=? hi)%nat.

(** [c.isspace()] on the code points below 256. *)
Definition is_space (c : ascii) : bool :=
  let n := code c in
  between 9 13 n || between 28 32 n || (n =? 133)%nat || (n =? 160)%nat.

(** [c.lower()]: A-Z and the Latin-1 capitals (all of 0xC0-0xDE but the
    multiplication sign 0xD7) move up by 32. *)
Definition lower_char (c : ascii) : ascii :=
  let n := code c in
  if between 65 90 n || (between 192 222 n && negb (n =? 215)%nat)
  then ascii_of_nat (n + 32) else c.

(** [c.upper()] where it stays below 256: a-z and 0xE0-0xFE but the
    division sign 0xF7.  (The upper cases of 0xB5, 0xDF and 0xFF lie
    outside; they are left as they are.) *)
Definition upper_char (c : ascii) : ascii :=
  let n := code c in
  if between 97 122 n || (between 224 254 n && negb (n =? 247)%nat)
  then ascii_of_nat (n - 32) else c.

Fixpoint map_string (f : ascii -> ascii) (s : string) : string :=
  match s with
  | EmptyString => EmptyString
  | String c s' => String (f c) (map_string f s')
  end.

(** [s.lower()]. *)
Definition lower (s : string) : string := map_string lower_char s.

(** [s.capitalize()]: first character upper case, the rest lower case. *)
Definition capitalize (s : string) : string :=
  match s with
  | EmptyString => EmptyString
  | String c s' => String (upper_char c) (lower s')
  end.

(** [s.replace(a, b)] for single characters [a] and [b]. *)
Definition replace_char (a b : ascii) (s : string) : string :=
  map_string (fun c => if Ascii.eqb c a then b else c) s.

(** [s.split()]: the maximal runs of characters that are not white
    space.  [cur] is the run being read, if any. *)
Fixpoint split_from (cur : option string) (s : string) : list string :=
  match s with
  | EmptyString =>
      match cur with
      | Some w => [w]
      | None => []
      end
  | String c s' =>
      if is_space c then
        match cur with
        | Some w => w :: split_from None s'
        | None => split_from None s'
        end
      else
        split_from (Some (match cur with
                          | Some w => w ++ String c EmptyString
                          | None => String c EmptyString
                          end)) s'
  end.

Definition split (s : string) : list string := split_from None s.

(** [s.count(sub)]: the occurrences of [sub] in [s] that do not overlap,
    found from left to right.  [skip] characters are still covered by the
    last occurrence found.  For the empty [sub] Python counts
    [len(s) + 1]. *)
Fixpoint count_from (skip : nat) (s sub : string) : Z :=
  match s with
  | EmptyString =>
      match sub with
      | EmptyString => 1
      | String _ _ => 0
      end
  | String _ s' =>
      match skip with
      | S k => count_from k s' sub
      | O =>
          if prefix sub s
          then 1 + count_from (pred (String.length sub)) s' sub
          else count_from 0 s' sub
      end
  end.

Definition count (s sub : string) : Z := count_from 0 s sub.

(** [sum(xs)] on ints: from 0, left to right. *)
Definition sum (xs : list Z) : Z := fold_left Z.add xs 0%Z.

(** [str(n)] for ints. *)
Definition str_nat (n : nat) : string := NilZero.string_of_uint (Nat.to_uint n).
Definition str_Z (z : Z) : string := NilZero.string_of_int (Z.to_int z).

(** A Python object: its identity and the value it holds. *)
Record PyObj (A : Type) : Type := { id : nat; value : A }.
Arguments id {A} _.
Arguments value {A} _.

(** [None] is an exception raised; [x <- e ;; k] goes on when there is
    none. *)
Notation "x <- e ;; k" :=
  (match e with
   | Some x => k
   | None => None
   end) (at level 61, e at next level, right associativity).

(** ** Data model *)

(** A transcript segment, the dict [{"start", "end", "text"}] of the
    provider: the three keys are present, so [segment.get(key, default)]
    and [segment[key]] both read the field; the time stamps are floats.
    A dict that lacks a key lies outside this type: on it the code takes
    the default of [.get] where it uses [.get], and raises [KeyError] at
    [segments[-1]['end']] and at [s["text"]]. *)
Record Segment : Type := {
  seg_start : F64.float;
  seg_end : F64.float;
  seg_text : string
}.

Definition segment : Type := PyObj Segment.

(** The comparison of the values of one key in [a == b] on dicts: the
    same object, or [==].  The JSON decoder gives one and the same float
    object for every NaN it reads, so two NaN stamps are the same
    object; any other two stamps compare by [==] on floats. *)
Definition stamp_eqb (x y : F64.float) : bool :=
  match x, y with
  | S754_nan, S754_nan => true
  | _, _ => F64.eqb x y
  end.

(** [a == b] on two segment dicts: every key compared. *)
Definition segment_eqb (a b : Segment) : bool :=
  stamp_eqb (seg_start a) (seg_start b)
  && stamp_eqb (seg_end a) (seg_end b)
  && String.eqb (seg_text a) (seg_text b).

(** The comparison of [x in xs]: the same object, or an equal one. *)
Definition same_or_equal (x y : segment) : bool :=
  (id x =? id y)%nat || segment_eqb (value x) (value y).

(** [x in xs]. *)
Definition py_in (x : segment) (xs : list segment) : bool :=
  existsb (fun y => same_or_equal y x) xs.

(** The dict [call_stages], in insertion order. *)
Definition StageMap : Type := list (string * list segment).

(** [d[k] = v]: in place when the key is there, at the end otherwise. *)
Fixpoint dict_set (d : StageMap) (k : string) (v : list segment) : StageMap :=
  match d with
  | [] => [(k, v)]
  | (k', v') :: d' =>
      if String.eqb k' k then (k', v) :: d' else (k', v') :: dict_set d' k v
  end.

Fixpoint dict_get (d : StageMap) (k : string) : option (list segment) :=
  match d with
  | [] => None
  | (k', v') :: d' => if String.eqb k' k then Some v' else dict_get d' k
  end.

(** ** Stage segmenter *)

(** [int(total_segments * c)] for a float literal [c]. *)
Definition int_scaled (total_segments : Z) (c : F64.float) : Z :=
  py_int (F64.mul (F64.of_Z total_segments) c).

Definition segment_call (segments : list segment) : StageMap :=
  let call_stages : StageMap :=
    [("intro", []);
     ("issue_description", []);
     ("resolution", []);
     ("objection", []);
     ("closing", [])] in
  let total_segments := len segments in
  if total_segments >? 0 then
    let intro_end := Z.max 1 (int_scaled total_segments F64.c015) in
    let issue_end := Z.max intro_end (int_scaled total_segments F64.c045) in
    let resolution_end := Z.max issue_end (int_scaled total_segments F64.c065) in
    let objection_end := Z.max resolution_end (int_scaled total_segments F64.c085) in
    let call_stages := dict_set call_stages "intro" (py_slice segments None (Some intro_end)) in
    let call_stages := dict_set call_stages "issue_description" (py_slice segments (Some intro_end) (Some issue_end)) in
    let call_stages := dict_set call_stages "resolution" (py_slice segments (Some issue_end) (Some resolution_end)) in
    let call_stages := dict_set call_stages "objection" (py_slice segments (Some resolution_end) (Some objection_end)) in
    let call_stages := dict_set call_stages "closing" (py_slice segments (Some objection_end) None) in
    call_stages
  else call_stages.

(** ** Talk-ratio calculator *)

(** [segment.get("end", 0) - segment.get("start", 0)]. *)
Definition seg_duration (s : segment) : pynum :=
  py_sub (PFloat (seg_end (value s))) (PFloat (seg_start (value s))).

(** One turn of the loop of [calculate_talk_ratio] on the pair
    [(agent_duration, customer_duration)]. *)
Definition talk_step (acc : pynum * pynum) (item : nat * segment) : pynum * pynum :=
  let '(agent_duration, customer_duration) := acc in
  let '(i, s) := item in
  let duration := seg_duration s in
  if (i mod 2 =? 0)%nat
  then (py_add agent_duration duration, customer_duration)
  else (agent_duration, py_add customer_duration duration).

Definition calculate_talk_ratio (segments : list segment) : option pynum :=
  let '(agent_duration, customer_duration) :=
    fold_left talk_step (enumerate segments) (PInt 0, PInt 0) in
  let customer_duration :=
    if py_eqb customer_duration (PInt 0) then PInt 1 else customer_duration in
  py_truediv agent_duration customer_duration.

(** ** Metrics extractor *)

Record Metrics : Type := {
  duration : pynum;
  word_count : Z;
  talk_ratio : pynum;
  filler_count : Z;
  filler_frequency : pynum
}.

Definition filler_words : list string := ["um"; "uh"; "like"; "you know"; "so"].

Definition extract_call_metrics (transcript : string) (segments : list segment)
  : option Metrics :=
  let word_count := len (split transcript) in
  let duration :=
    match py_last segments with
    | Some s => PFloat (seg_end (value s))
    | None => PInt 0
    end in
  talk_ratio <- calculate_talk_ratio segments ;;
  let filler_count :=
    sum (map (fun word => count (lower transcript) word) filler_words) in
  filler_frequency <-
    (if word_count >? 0
     then py_truediv (PInt filler_count) (PInt word_count)
     else Some (PInt 0)) ;;
  Some {| duration := duration;
          word_count := word_count;
          talk_ratio := talk_ratio;
          filler_count := filler_count;
          filler_frequency := filler_frequency |}.

(** ** Timeline builder (the loop of [render_results_tabs]) *)

Record TimelineEntry : Type := {
  tl_Speaker : string;
  tl_Start : F64.float;
  tl_Duration : pynum;
  tl_Stage : string;
  tl_Text : string;
  tl_Segment : string
}.

(** The inner loop: the first stage, in the order of the dict, that the
    segment is [in]; ["Unknown"] when the loop ends without a [break]. *)
Fixpoint find_stage (s : segment) (items : StageMap) : string :=
  match items with
  | [] => "Unknown"
  | (stage_name, stage_segments) :: rest =>
      if py_in s stage_segments then stage_name else find_stage s rest
  end.

Definition stage_label (stage : string) : string :=
  replace_char "_" " " (capitalize stage).

Definition timeline_entry (call_stages : StageMap) (item : nat * segment)
  : TimelineEntry :=
  let '(i, s) := item in
  let speaker := if (i mod 2 =? 0)%nat then "Agent" else "Customer" in
  let stage := find_stage s call_stages in
  let start_time := seg_start (value s) in
  let txt := seg_text (value s) in
  {| tl_Speaker := speaker;
     tl_Start := start_time;
     tl_Duration := seg_duration s;
     tl_Stage := stage_label stage;
     tl_Text := if (50 <? String.length txt)%nat
                then substring 0 50 txt ++ "..." else txt;
     tl_Segment := "Segment " ++ str_nat (i + 1) |}.

Definition timeline_data (segments : list segment) (call_stages : StageMap)
  : list TimelineEntry :=
  map (timeline_entry call_stages) (enumerate segments).

(** ** Session state, transcription client and [process_audio] *)

Record UploadedFile : Type := { file_name : string; file_data : string }.

(** [st.session_state]: the fields set at start-up.  [metrics] is [None]
    for the empty dict of the start. *)
Record session_state : Type := {
  api_key : string;
  uploaded_audio : option UploadedFile;
  audio_url : option string;
  transcript : string;
  segments : list segment;
  processing : bool;
  call_stages : StageMap;
  metrics : option Metrics
}.

Definition initial_state : session_state :=
  {| api_key := ""; uploaded_audio := None; audio_url := None;
     transcript := ""; segments := []; processing := false;
     call_stages := []; metrics := None |}.

Definition set_processing (st : session_state) (b : bool) : session_state :=
  {| api_key := api_key st; uploaded_audio := uploaded_audio st;
     audio_url := audio_url st; transcript := transcript st;
     segments := segments st; processing := b;
     call_stages := call_stages st; metrics := metrics st |}.

Definition set_transcript (st : session_state) (t : string) : session_state :=
  {| api_key := api_key st; uploaded_audio := uploaded_audio st;
     audio_url := audio_url st; transcript := t;
     segments := segments st; processing := processing st;
     call_stages := call_stages st; metrics := metrics st |}.

Definition set_segments (st : session_state) (l : list segment) : session_state :=
  {| api_key := api_key st; uploaded_audio := uploaded_audio st;
     audio_url := audio_url st; transcript := transcript st;
     segments := l; processing := processing st;
     call_stages := call_stages st; metrics := metrics st |}.

Definition set_call_stages (st : session_state) (d : StageMap) : session_state :=
  {| api_key := api_key st; uploaded_audio := uploaded_audio st;
     audio_url := audio_url st; transcript := transcript st;
     segments := segments st; processing := processing st;
     call_stages := d; metrics := metrics st |}.

Definition set_metrics (st : session_state) (m : Metrics) : session_state :=
  {| api_key := api_key st; uploaded_audio := uploaded_audio st;
     audio_url := audio_url st; transcript := transcript st;
     segments := segments st; processing := processing st;
     call_stages := call_stages st; metrics := Some m |}.

(** The request sent by [requests.post], with the bearer token. *)
Inductive Request : Type :=
| PostJson (bearer : string) (file_url : string)
| PostFiles (bearer : string) (file : UploadedFile).

(** The JSON object of a successful answer; both keys may be absent.
    A key that is there holds a string, respectively a list of segments:
    an answer with ["text": null] or ["segments": null], on which
    [process_audio] raises after it has overwritten part of the session,
    lies outside this type. *)
Record Transcription : Type := {
  res_text : option string;
  res_segments : option (list segment)
}.

(** An HTTP response; [response.json()] gives the object or raises (the
    message of the exception on the right).  A body that decodes to
    something else than an object (null, a list, a number), for which
    [transcribe_audio] returns it unchecked and [process_audio] raises
    on [result.get], lies outside this type. *)
Record Response : Type := {
  status_code : Z;
  response_text : string;
  response_json : Transcription + string
}.

(** What lies outside the program: the environment variable and the
    provider, which answers a request or makes [requests.post] raise. *)
Record World : Type := {
  MISTRAL_API_KEY : option string;
  requests_post : Request -> Response + string
}.

(** Truth value of a string or [None]. *)
Definition truthy (s : option string) : bool :=
  match s with
  | Some (String _ _) => true
  | _ => false
  end.

Definition transcribe_audio (w : World) (st : session_state)
    (audio_url : option string) (audio_file : option UploadedFile)
  : option Transcription * option string :=
  let api_key :=
    if truthy (Some (api_key st)) then Some (api_key st) else MISTRAL_API_KEY w in
  if negb (truthy api_key) then
    (None, Some "API key is required. Please provide a Mistral API key in the API Configuration section.")
  else
    let bearer := match api_key with Some k => k | None => "" end in
    let sent :=
      if truthy audio_url then
        Some (requests_post w (PostJson bearer
                                 (match audio_url with Some u => u | None => "" end)))
      else
        match audio_file with
        | Some f => Some (requests_post w (PostFiles bearer f))
        | None => None
        end in
    match sent with
    | None => (None, Some "No audio provided")
    | Some (inr e) => (None, Some ("Exception: " ++ e))
    | Some (inl response) =>
        if (status_code response =? 200)%Z then
          match response_json response with
          | inl result => (Some result, None)
          | inr e => (None, Some ("Exception: " ++ e))
          end
        else
          (None, Some ("API Error: " ++ str_Z (status_code response)
                         ++ " - " ++ response_text response))
    end.

(** How [process_audio] ends: after [st.error(msg)], after
    [st.success(msg)], or with an exception that nothing catches. *)
Inductive Outcome : Type :=
| Error (msg : string)
| Success (msg : string)
| Uncaught.

Definition process_audio (w : World) (st : session_state)
  : session_state * Outcome :=
  let st := set_processing st true in
  let answer :=
    match uploaded_audio st with
    | Some f => Some (transcribe_audio w st None (Some f))
    | None =>
        if truthy (audio_url st)
        then Some (transcribe_audio w st (audio_url st) None)
        else None
    end in
  match answer with
  | None => (set_processing st false, Error "No audio provided")
  | Some (result, error) =>
      if truthy error then
        (set_processing st false,
         Error ("Transcription failed: "
                  ++ match error with Some e => e | None => "" end))
      else
        match result with
        | None => (st, Uncaught)
        | Some result =>
            let st := set_transcript st
                        (match res_text result with Some t => t | None => "" end) in
            let st := set_segments st
                        (match res_segments result with Some l => l | None => [] end) in
            let st := set_call_stages st (segment_call (segments st)) in
            match extract_call_metrics (transcript st) (segments st) with
            | None => (st, Uncaught)
            | Some m =>
                (set_processing (set_metrics st m) false,
                 Success "Call analysis complete!")
            end
        end
  end.

(** The timeline that [render_results_tabs] builds from the session
    state: nothing without a transcript or without segments. *)
Definition render_timeline (st : session_state) : option (list TimelineEntry) :=
  if truthy (Some (transcript st)) then
    match segments st with
    | [] => None
    | _ :: _ => Some (timeline_data (segments st) (call_stages st))
    end
  else None.

(** ** The specification's own wording, to compare the code with *)

Module Spec.

(** The five stage names, in the fixed order. *)
Definition stage_names : list string :=
  ["intro"; "issue_description"; "resolution"; "objection"; "closing"].

(** The slice [[lo:hi)] of a sequence. *)
Definition slice {A : Type} (l : list A) (lo hi : nat) : list A :=
  firstn (hi - lo) (skipn lo l).

(** [floor(n * p / 100)], the proportional cutoff in exact arithmetic. *)
Definition cutoff (n p : Z) : Z := (n * p) / 100.

Definition intro_end (n : Z) : Z := Z.max 1 (cutoff n 15).
Definition issue_end (n : Z) : Z := Z.max (intro_end n) (cutoff n 45).
Definition resolution_end (n : Z) : Z := Z.max (issue_end n) (cutoff n 65).
Definition objection_end (n : Z) : Z := Z.max (resolution_end n) (cutoff n 85).

(** The StageMap cut at four boundary indices. *)
Definition stages_at (l : list segment) (a b c d : nat) : StageMap :=
  [("intro", slice l 0 a);
   ("issue_description", slice l a b);
   ("resolution", slice l b c);
   ("objection", slice l c d);
   ("closing", slice l d (List.length l))].

(** The stage a StageMap assigns to position [i] of the sequence it
    partitions: the stage whose slice covers [i]. *)
Fixpoint stage_of_index (sm : StageMap) (i : nat) : option string :=
  match sm with
  | [] => None
  | (name, stage_segments) :: rest =>
      if (i <? List.length stage_segments)%nat then Some name
      else stage_of_index rest (i - List.length stage_segments)
  end.

(** The segments at the even ([true]) or odd ([false]) 0-based
    positions. *)
Definition at_parity {A : Type} (even : bool) (l : list A) : list A :=
  map snd (filter (fun item => Bool.eqb (Nat.even (fst item)) even)
             (enumerate l)).

(** [sum(end - start for s in l)]. *)
Definition total_duration (l : list segment) : pynum :=
  fold_left py_add (map seg_duration l) (PInt 0).

Definition agent_duration (l : list segment) : pynum :=
  total_duration (at_parity true l).

Definition customer_duration (l : list segment) : pynum :=
  total_duration (at_parity false l).

(** The glossary's talk ratio: the customer duration floored at 1,
    [agent_duration / max(customer_duration, 1)]. *)
Definition floored_ratio (l : list segment) : option pynum :=
  py_truediv (agent_duration l) (py_max (customer_duration l) (PInt 1)).




(** How many of the index ranges [[lo:hi)] hold position [i]. *)
Definition covering (ranges : list (nat * nat)) (i : nat) : nat :=
  List.length
    (filter (fun r => (fst r <=? i)%nat && (i <? snd r)%nat) ranges).

(** No two positions of [l] hold segments that [in] takes for one
    another (the same object, or two equal dicts). *)
Definition distinct (l : list segment) : Prop :=
  forall (i j : nat) (x y : segment),
    nth_error l i = Some x -> nth_error l j = Some y ->
    same_or_equal y x = true -> i = j.

(** The labels the timeline shows for the five stages. *)
Definition stage_labels : list string :=
  ["Intro"; "Issue description"; "Resolution"; "Objection"; "Closing"].

(** The result fields of the session state. *)
Definition results (st : session_state)
  : string * list segment * StageMap * option Metrics :=
  (transcript st, segments st, call_stages st, metrics st).


(** The error taxonomy of the transcription contract. *)
Inductive TranscriptionError : Type :=
| NoAudioProvided
| MissingCredentials
| ProviderError (status : Z) (body : string)
| TransportError (message : string).

(** The audio source of an analysis: the uploaded binary if there is
    one, else the URL if it is not empty. *)
Definition source (st : session_state) : option Request :=
  let bearer := "" in
  match uploaded_audio st with
  | Some f => Some (PostFiles bearer f)
  | None =>
      match audio_url st with
      | Some (String c u) => Some (PostJson bearer (String c u))
      | _ => None
      end
  end.

(** The bearer token: the caller's value first, the configured default
    second; nothing when both are empty. *)
Definition credentials (w : World) (st : session_state) : option string :=
  match api_key st with
  | String c k => Some (String c k)
  | EmptyString =>
      match MISTRAL_API_KEY w with
      | Some (String c k) => Some (String c k)
      | _ => None
      end
  end.

Definition with_bearer (bearer : string) (r : Request) : Request :=
  match r with
  | PostJson _ u => PostJson bearer u
  | PostFiles _ f => PostFiles bearer f
  end.

(** The contract [transcribe(source, credentials) -> Result]. *)
Definition transcribe (w : World) (st : session_state)
  : TranscriptionError + Transcription :=
  match source st with
  | None => inl NoAudioProvided
  | Some req =>
      match credentials w st with
      | None => inl MissingCredentials
      | Some bearer =>
          match requests_post w (with_bearer bearer req) with
          | inr e => inl (TransportError e)
          | inl response =>
              if (status_code response =? 200)%Z then
                match response_json response with
                | inl result => inr result
                | inr e => inl (TransportError e)
                end
              else inl (ProviderError (status_code response)
                          (response_text response))
          end
      end
  end.

(** The message a failure is shown with. *)
Definition message (e : TranscriptionError) : string :=
  match e with
  | NoAudioProvided => "No audio provided"
  | MissingCredentials =>
      "Transcription failed: API key is required. Please provide a Mistral API key in the API Configuration section."
  | ProviderError status body =>
      "Transcription failed: API Error: " ++ str_Z status ++ " - " ++ body
  | TransportError m => "Transcription failed: Exception: " ++ m
  end.

(** The analysis of an input pair: metrics, stage map and timeline. *)
Definition analysis (t : string) (segs : list segment)
  : option Metrics * StageMap * list TimelineEntry :=
  (extract_call_metrics t segs,
   segment_call segs,
   timeline_data segs (segment_call segs)).

(** The input pair a provider answer stands for. *)
Definition input_of (r : Transcription) : string * list segment :=
  (match res_text r with Some t => t | None => "" end,
   match res_segments r with Some l => l | None => [] end).

End Spec.

(** Where a non-negative slice index lands in [l]. *)
Definition clamp {A : Type} (l : list A) (i : Z) : nat :=
  Z.to_nat (Z.min i (len l)).

(** Test data: a segment object from whole seconds. *)
Definition mk_segment (i : nat) (a b : Z) (t : string) : segment :=
  {| id := i;
     value := {| seg_start := F64.of_Z a; seg_end := F64.of_Z b; seg_text := t |} |}.

(** The float 0.5. *)
Definition half : F64.float := S754_finite false 4503599627370496 (-53).

(** An agent speaking for ten seconds, then a customer for half a
    second. *)
Definition short_answer : list segment :=
  [mk_segment 0 0 10 "How can I help you today?";
   {| id := 1;
      value := {| seg_start := F64.zero; seg_end := half; seg_text := "Hi." |} |}].

(** Two segments the provider returned with the same time stamps and the
    same text: two objects, equal as dicts. *)
Definition said_twice : list segment :=
  [mk_segment 0 0 1 "Thank you."; mk_segment 1 0 1 "Thank you."].

(** A session that holds the results of an earlier call and asks for the
    analysis of a URL, and a provider that is out of service. *)
Definition earlier_results : session_state :=
  {| api_key := "secret";
     uploaded_audio := None;
     audio_url := Some "https://example.com/call.mp3";
     transcript := "Thank you. Thank you.";
     segments := said_twice;
     processing := false;
     call_stages := segment_call said_twice;
     metrics := extract_call_metrics "Thank you. Thank you." said_twice |}.

Definition out_of_service : World :=
  {| MISTRAL_API_KEY := None;
     requests_post := fun _ =>
       inl {| status_code := 503;
              response_text := "Service Unavailable";
              response_json := inr "Expecting value" |} |}.

(** A provider that answers every request with the same transcript. *)
Definition answering (r : Transcription) : World :=
  {| MISTRAL_API_KEY := Some "default";
     requests_post := fun _ =>
       inl {| status_code := 200;
              response_text := "";
              response_json := inl r |} |}.

Definition short_call : Transcription :=
  {| res_text := Some "How can I help you today? Hi.";
     res_segments := Some short_answer |}.

(** ** The rest of the page: configuration, upload, results, [main] *)

Definition set_api_key (st : session_state) (k : string) : session_state :=
  {| api_key := k; uploaded_audio := uploaded_audio st;
     audio_url := audio_url st; transcript := transcript st;
     segments := segments st; processing := processing st;
     call_stages := call_stages st; metrics := metrics st |}.

Definition set_uploaded_audio (st : session_state) (f : UploadedFile)
  : session_state :=
  {| api_key := api_key st; uploaded_audio := Some f;
     audio_url := audio_url st; transcript := transcript st;
     segments := segments st; processing := processing st;
     call_stages := call_stages st; metrics := metrics st |}.

Definition set_audio_url (st : session_state) (u : string) : session_state :=
  {| api_key := api_key st; uploaded_audio := uploaded_audio st;
     audio_url := Some u; transcript := transcript st;
     segments := segments st; processing := processing st;
     call_stages := call_stages st; metrics := metrics st |}.

(** The three boxes of [render_api_config]. *)
Inductive KeyBox : Type :=
| KeySaved
| KeyFromEnv
| KeyMissing.

(** [render_api_config]: [typed] is what the text input returns.  The
    box shown is returned; the fixed markup around it is left out. *)
Definition render_api_config (w : World) (typed : string) (st : session_state)
  : session_state * KeyBox :=
  if truthy (Some typed) then (set_api_key st typed, KeySaved)
  else if truthy (MISTRAL_API_KEY w) then (st, KeyFromEnv)
  else (st, KeyMissing).

(** [render_audio_upload]: [uploaded_file] is what the file uploader
    returns, [typed] the URL text input, [clicked] whether the user
    pressed the button, which is disabled while [processing] is set.
    The result is the outcome shown, if the button ran anything. *)
Definition render_audio_upload (w : World)
    (uploaded_file : option UploadedFile) (typed : string) (clicked : bool)
    (st : session_state)
  : session_state * option Outcome :=
  let st := match uploaded_file with
            | Some f => set_uploaded_audio st f
            | None => st
            end in
  let st := if truthy (Some typed) then set_audio_url st typed else st in
  if clicked && negb (processing st) then
    if match uploaded_audio st with Some _ => true | None => false end
       || truthy (audio_url st)
    then let '(st', o) := process_audio w st in (st', Some o)
    else (st, Some (Error "Please upload an audio file or provide an audio URL"))
  else (st, None).

(** [" ".join(s["text"] for s in call_stages.get(stage, []))]. *)
Definition stage_text (d : StageMap) (stage : string) : string :=
  String.concat " "
    (map (fun s => seg_text (value s))
       (match dict_get d stage with
        | Some l => l
        | None => []
        end)).

(** What a stage column shows under its heading. *)
Definition stage_column (d : StageMap) (stage : string) : string :=
  let t := stage_text d stage in
  if truthy (Some t)
  then "<div style='height:150px;overflow-y:auto;font-size:0.9em;'>" ++ t ++ "</div>"
  else "<div style='height:150px;overflow-y:auto;font-size:0.9em;'>No content</div>".

(** The parts of [render_results_tabs] that depend on the analysis: the
    five stage columns (heading and content) and the timeline, or the
    warning that stands for it.  Nothing is rendered without a
    transcript.  (The table of segments and the four metric tiles, which
    format floats with one decimal, are left out.) *)
Record Results : Type := {
  shown_stages : list (string * string);
  shown_timeline : list TimelineEntry + string
}.

Definition render_results_tabs (st : session_state) : option Results :=
  if negb (truthy (Some (transcript st))) then None
  else
    let stages :=
      ["intro"; "issue_description"; "resolution"; "objection"; "closing"] in
    Some {| shown_stages :=
              map (fun stage =>
                     ("**" ++ stage_label stage ++ "**",
                      stage_column (call_stages st) stage)) stages;
            shown_timeline :=
              match segments st with
              | [] => inr "No segments for timeline"
              | _ :: _ =>
                  match timeline_data (segments st) (call_stages st) with
                  | [] => inr "No timeline data available"
                  | e :: l => inl (e :: l)
                  end
              end |}.

(** What the user does before one run of the script. *)
Record Inputs : Type := {
  typed_key : string;
  chosen_file : option UploadedFile;
  typed_url : string;
  clicked : bool
}.

Record Page : Type := {
  key_box : KeyBox;
  analysis : option Outcome;
  results : option Results
}.

(** One run of the script ([main]) on the session it finds. *)
Definition main (w : World) (i : Inputs) (st : session_state)
  : session_state * Page :=
  let '(st, box) := render_api_config w (typed_key i) st in
  let '(st, o) :=
    render_audio_upload w (chosen_file i) (typed_url i) (clicked i) st in
  (st, {| key_box := box; analysis := o; results := render_results_tabs st |}).

(** The sessions a user can get to: the start, and every run from
    there, the world being what it is at each run. *)
Inductive reachable : session_state -> Prop :=
| reach_start : reachable initial_state
| reach_run (w : World) (i : Inputs) (st : session_state) :
    reachable st -> reachable (fst (main w i st)).

(** The stage map held by a session is the one [segment_call] gives
    for the segments it holds, or both are still those of the start. *)
Definition stages_match (st : session_state) : Prop :=
  (segments st = [] /\ call_stages st = [])
  \/ call_stages st = segment_call (segments st).

(** The one request [transcribe_audio] can send: with the key of the
    session if there is one and the key of the environment otherwise, to
    the URL if there is one and with the file otherwise. *)
Definition request_of (w : World) (st : session_state)
    (audio_url : option string) (audio_file : option UploadedFile)
  : option Request :=
  match Spec.credentials w st with
  | None => None
  | Some bearer =>
      match audio_url, audio_file with
      | Some (String c u), _ => Some (PostJson bearer (String c u))
      | _, Some f => Some (PostFiles bearer f)
      | _, None => None
      end
  end.

(** The durations of the timeline entries of one speaker, added up. *)
Definition spoken (speaker : string) (tl : list TimelineEntry) : pynum :=
  fold_left py_add
    (map tl_Duration (filter (fun e => String.eqb (tl_Speaker e) speaker) tl))
    (PInt 0).

(** Sizes of the five stages, in order. *)
Definition stage_sizes (d : StageMap) : list nat :=
  map (fun kv => List.length (snd kv)) d.

(** ** A notion for the proofs about rounding *)

(** What [j] right shifts of the mantissa [X] leave in a [shr_record]:
    the quotient by [2^j], the round bit set when the remainder is at
    least half of [2^j], and the sticky bit set when the remainder is
    neither 0 nor that half. *)
Definition shr_inv (X j : Z) (mrs : shr_record) : Prop :=
  0 <= shr_m mrs /\
  0 <= X - shr_m mrs * 2 ^ j < 2 ^ j /\
  (shr_r mrs = true <-> 2 ^ j <= 2 * (X - shr_m mrs * 2 ^ j)) /\
  (shr_s mrs = true <->
   X - shr_m mrs * 2 ^ j <> 0 /\ 2 * (X - shr_m mrs * 2 ^ j) <> 2 ^ j).

(** * Properties *)

Local Open Scope list_scope.
Local Open Scope Z_scope.

(** ** Slices *)

Section SliceFacts.
Context {A : Type}.
Implicit Types l : list A.

Lemma firstn_plus l a b :
  firstn (a + b) l = firstn a l ++ firstn b (skipn a l).
Proof.
  revert l; induction a as [|a IH]; intros l; [reflexivity|].
  destruct l as [|x l]; simpl.
  - now rewrite firstn_nil.
  - now rewrite IH.
Qed.

Lemma slice_length l lo hi :
  (lo <= hi <= List.length l)%nat ->
  List.length (Spec.slice l lo hi) = (hi - lo)%nat.
Proof.
  intros H. unfold Spec.slice.
  rewrite length_firstn, length_skipn. lia.
Qed.

Lemma slice_app l lo mid hi :
  (lo <= mid <= hi)%nat ->
  Spec.slice l lo mid ++ Spec.slice l mid hi = Spec.slice l lo hi.
Proof.
  intros H. unfold Spec.slice.
  replace (hi - lo)%nat with ((mid - lo) + (hi - mid))%nat by lia.
  rewrite firstn_plus, skipn_skipn.
  now replace (mid - lo + lo)%nat with mid by lia.
Qed.

Lemma slice_all l : Spec.slice l 0 (List.length l) = l.
Proof.
  unfold Spec.slice. rewrite Nat.sub_0_r, skipn_0. apply firstn_all.
Qed.

Lemma slice_empty l lo : Spec.slice l lo lo = [].
Proof. unfold Spec.slice. now rewrite Nat.sub_diag. Qed.

Lemma clamp_le l i : (clamp l i <= List.length l)%nat.
Proof. unfold clamp, len. lia. Qed.

Lemma clamp_mono l i j : i <= j -> (clamp l i <= clamp l j)%nat.
Proof. unfold clamp. lia. Qed.

Lemma slice_index_nonneg l i : 0 <= i -> slice_index (len l) i = Z.min i (len l).
Proof.
  intros H. unfold slice_index.
  destruct (i <? 0) eqn:E; [apply Z.ltb_lt in E; lia | reflexivity].
Qed.

Lemma py_slice_between l a b :
  0 <= a -> 0 <= b ->
  py_slice l (Some a) (Some b) = Spec.slice l (clamp l a) (clamp l b).
Proof.
  intros Ha Hb. unfold py_slice, Spec.slice, clamp.
  rewrite !slice_index_nonneg by assumption.
  f_equal. unfold len. lia.
Qed.

Lemma py_slice_to l b :
  0 <= b -> py_slice l None (Some b) = Spec.slice l 0 (clamp l b).
Proof.
  intros Hb. unfold py_slice, Spec.slice, clamp.
  rewrite slice_index_nonneg by assumption.
  f_equal. lia.
Qed.

Lemma py_slice_from l a :
  0 <= a -> py_slice l (Some a) None = Spec.slice l (clamp l a) (List.length l).
Proof.
  intros Ha. unfold py_slice, Spec.slice, clamp.
  rewrite slice_index_nonneg by assumption.
  f_equal. unfold len. lia.
Qed.

End SliceFacts.

(** ** The stage segmenter *)

(** The body of [segment_call] on a non-empty list: the dict after the
    five assignments. *)
Lemma segment_call_nonempty (segs : list segment) :
  0 < len segs ->
  let n := len segs in
  let intro_end := Z.max 1 (int_scaled n F64.c015) in
  let issue_end := Z.max intro_end (int_scaled n F64.c045) in
  let resolution_end := Z.max issue_end (int_scaled n F64.c065) in
  let objection_end := Z.max resolution_end (int_scaled n F64.c085) in
  segment_call segs =
    [("intro", py_slice segs None (Some intro_end));
     ("issue_description", py_slice segs (Some intro_end) (Some issue_end));
     ("resolution", py_slice segs (Some issue_end) (Some resolution_end));
     ("objection", py_slice segs (Some resolution_end) (Some objection_end));
     ("closing", py_slice segs (Some objection_end) None)].
Proof.
  intros H. unfold segment_call.
  destruct (len segs >? 0) eqn:E; [reflexivity|].
  rewrite Z.gtb_ltb in E. apply Z.ltb_ge in E. lia.
Qed.

Lemma segment_call_empty : segment_call [] = Spec.stages_at [] 0 0 0 0.
Proof. reflexivity. Qed.

(** Whatever the four cutoffs evaluate to, the dict is the input cut at
    four ordered positions. *)
Lemma segment_call_stages_at (segs : list segment) :
  exists a b c d : nat,
    (a <= b /\ b <= c /\ c <= d /\ d <= List.length segs)%nat /\
    (segs <> [] -> (1 <= a)%nat) /\
    segment_call segs = Spec.stages_at segs a b c d.
Proof.
  destruct segs as [|s segs'].
  - exists 0%nat, 0%nat, 0%nat, 0%nat. repeat split; try lia.
    intros H; now elim H.
  - set (segs := s :: segs').
    assert (Hn : 0 < len segs) by (unfold len; simpl; lia).
    pose proof (segment_call_nonempty segs Hn) as E. cbv zeta in E.
    set (n := len segs) in *.
    set (a := Z.max 1 (int_scaled n F64.c015)) in *.
    set (b := Z.max a (int_scaled n F64.c045)) in *.
    set (c := Z.max b (int_scaled n F64.c065)) in *.
    set (d := Z.max c (int_scaled n F64.c085)) in *.
    assert (Ha : 1 <= a) by (subst a; lia).
    assert (Hb : a <= b) by (subst b; lia).
    assert (Hc : b <= c) by (subst c; lia).
    assert (Hd : c <= d) by (subst d; lia).
    exists (clamp segs a), (clamp segs b), (clamp segs c), (clamp segs d).
    split; [|split].
    + repeat split; try (apply clamp_mono; assumption). apply clamp_le.
    + intros _. unfold clamp. fold n. lia.
    + rewrite E. unfold Spec.stages_at.
      rewrite py_slice_to, !py_slice_between, py_slice_from by lia.
      reflexivity.
Qed.

Lemma covering_chain (a b c d n i : nat) :
  (a <= b /\ b <= c /\ c <= d /\ d <= n)%nat -> (i < n)%nat ->
  Spec.covering [(0, a); (a, b); (b, c); (c, d); (d, n)]%nat i = 1%nat.
Proof.
  intros H Hi. unfold Spec.covering. simpl.
  destruct (Nat.ltb_spec i a), (Nat.leb_spec a i),
    (Nat.ltb_spec i b), (Nat.leb_spec b i),
    (Nat.ltb_spec i c), (Nat.leb_spec c i),
    (Nat.ltb_spec i d), (Nat.leb_spec d i),
    (Nat.ltb_spec i n); simpl; lia.
Qed.

(** C1.  For every sequence of segments, [segment_call] returns a dict
    with exactly the five stages intro, issue_description, resolution,
    objection, closing, in that order; each stage is a contiguous slice
    [[lo:hi)] of the input, the five slices following one another from 0
    to [n]; the sizes add up to [n]; the stages concatenated in the fixed
    order give back the input; and every position of the input lies in
    exactly one of the five index ranges. *)
Theorem segment_call_partition (segs : list segment) :
  exists a b c d : nat,
    (a <= b /\ b <= c /\ c <= d /\ d <= List.length segs)%nat /\
    segment_call segs = Spec.stages_at segs a b c d /\
    map fst (segment_call segs) = Spec.stage_names /\
    list_sum (map (fun kv => List.length (snd kv)) (segment_call segs))
      = List.length segs /\
    List.concat (map snd (segment_call segs)) = segs /\
    forall i, (i < List.length segs)%nat ->
      Spec.covering [(0, a); (a, b); (b, c); (c, d); (d, List.length segs)]%nat i
        = 1%nat.
Proof.
  destruct (segment_call_stages_at segs) as (a & b & c & d & H & _ & E).
  exists a, b, c, d. rewrite E. unfold Spec.stages_at. simpl.
  repeat split; try tauto.
  - rewrite !slice_length by lia. lia.
  - rewrite app_nil_r, !app_assoc, !slice_app by lia. apply slice_all.
  - intros i Hi. now apply covering_chain.
Qed.

(** ** The talk ratio *)

Lemma mod2_even (k : nat) : (k mod 2 =? 0)%nat = Nat.even k.
Proof.
  destruct (Nat.even k) eqn:E.
  - apply Nat.even_spec in E. destruct E as [m ->].
    rewrite Nat.mul_comm, Nat.Div0.mod_mul. reflexivity.
  - assert (O : Nat.odd k = true)
      by (rewrite <- Nat.negb_even, E; reflexivity).
    apply Nat.odd_spec in O. destruct O as [m ->].
    rewrite Nat.add_comm, Nat.mul_comm, Nat.Div0.mod_add. reflexivity.
Qed.

(** The loop, started at any index and with any two running totals,
    adds the durations at the even positions to the first total and the
    others to the second, each in the order of the list. *)
Lemma talk_loop (l : list segment) : forall (k : nat) (x y : pynum),
  fold_left talk_step (combine (seq k (List.length l)) l) (x, y)
  = (fold_left py_add
       (map seg_duration
          (map snd (filter (fun item => Bool.eqb (Nat.even (fst item)) true)
                      (combine (seq k (List.length l)) l)))) x,
     fold_left py_add
       (map seg_duration
          (map snd (filter (fun item => Bool.eqb (Nat.even (fst item)) false)
                      (combine (seq k (List.length l)) l)))) y).
Proof.
  induction l as [|s l IH]; intros k x y; [reflexivity|].
  cbn [List.length seq combine fold_left filter fst].
  unfold talk_step at 2. rewrite mod2_even.
  destruct (Nat.even k); cbn [Bool.eqb map snd fold_left]; apply IH.
Qed.

Lemma talk_totals (segs : list segment) :
  fold_left talk_step (enumerate segs) (PInt 0, PInt 0)
  = (Spec.agent_duration segs, Spec.customer_duration segs).
Proof. apply talk_loop. Qed.

(** The divisor left after the substitution is never zero. *)
Lemma guarded_divisor_nonzero (c : pynum) :
  py_eqb (if py_eqb c (PInt 0) then PInt 1 else c) (PInt 0) = false.
Proof. destruct (py_eqb c (PInt 0)) eqn:E; [reflexivity | exact E]. Qed.

Lemma talk_ratio_divides (segs : list segment) :
  calculate_talk_ratio segs
  = py_truediv (Spec.agent_duration segs)
      (if py_eqb (Spec.customer_duration segs) (PInt 0)
       then PInt 1 else Spec.customer_duration segs).
Proof. unfold calculate_talk_ratio. rewrite talk_totals. reflexivity. Qed.


(** A total that [== 0] is below 1. *)
Lemma py_zero_lt_one (c : pynum) :
  py_eqb c (PInt 0) = true -> py_ltb c (PInt 1) = true.
Proof.
  destruct c as [z|f]; simpl.
  - intros E. apply Z.eqb_eq in E. now subst.
  - destruct f as [s| | |s m e]; try discriminate.
    + now destruct s.
    + now destruct s.
    + now destruct s.
Qed.

(** C4, as stated, fails: with a customer total of half a second the code
    divides by 0.5 and returns 20.0, where dividing by
    [max(customer_duration, 1)] gives 10.0. *)
Lemma talk_ratio_not_floored :
  Spec.customer_duration short_answer = PFloat half /\
  calculate_talk_ratio short_answer = Some (PFloat (F64.of_Z 20)) /\
  Spec.floored_ratio short_answer = Some (PFloat (F64.of_Z 10)) /\
  calculate_talk_ratio short_answer <> Spec.floored_ratio short_answer.
Proof.
  repeat split; try (vm_compute; reflexivity).
  vm_compute. discriminate.
Qed.

(** C4, amended.  The customer duration is replaced by 1 exactly when
    it [== 0]: a total that is not 0, also one below 1, divides as it
    is, and a total of 0 divides as 1.  So the talk ratio is
    [agent_duration / max(customer_duration, 1)] whenever the customer
    duration is 0 or is not below 1. *)
Theorem talk_ratio_floor_at_zero (segs : list segment) :
  let agent := Spec.agent_duration segs in
  let customer := Spec.customer_duration segs in
  (py_eqb customer (PInt 0) = false ->
   calculate_talk_ratio segs = py_truediv agent customer) /\
  (py_eqb customer (PInt 0) = true ->
   calculate_talk_ratio segs = py_truediv agent (PInt 1)) /\
  (py_eqb customer (PInt 0) = true \/ py_ltb customer (PInt 1) = false ->
   calculate_talk_ratio segs = Spec.floored_ratio segs).
Proof.
  intros agent customer.
  pose proof (talk_ratio_divides segs) as E. fold agent customer in E.
  split; [|split].
  - intros N. now rewrite E, N.
  - intros Z. now rewrite E, Z.
  - intros C. rewrite E. unfold Spec.floored_ratio, py_max.
    fold agent customer.
    destruct (py_eqb customer (PInt 0)) eqn:Z.
    + now rewrite (py_zero_lt_one _ Z).
    + destruct C as [C|C]; [discriminate|]. now rewrite C.
Qed.

Lemma talk_ratio_floor_at_zero_witness :
  let segs := [mk_segment 0 0 10 "hello"; mk_segment 1 0 5 "hi"] in
  (py_eqb (Spec.customer_duration segs) (PInt 0) = true
   \/ py_ltb (Spec.customer_duration segs) (PInt 1) = false) /\
  calculate_talk_ratio segs = Spec.floored_ratio segs.
Proof.
  intros segs.
  assert (C : py_eqb (Spec.customer_duration segs) (PInt 0) = true
              \/ py_ltb (Spec.customer_duration segs) (PInt 1) = false)
    by (right; vm_compute; reflexivity).
  split; [exact C|].
  exact (proj2 (proj2 (talk_ratio_floor_at_zero segs)) C).
Defined.

(** ** The metrics *)






Lemma talk_ratio_defined (segs : list segment) :
  exists r, calculate_talk_ratio segs = Some r.
Proof.
  rewrite talk_ratio_divides. unfold py_truediv.
  rewrite guarded_divisor_nonzero. eauto.
Qed.

(** [extract_call_metrics] never raises, and these are its five
    values. *)
Lemma extract_call_metrics_fields (t : string) (segs : list segment) :
  exists r,
    calculate_talk_ratio segs = Some r /\
    extract_call_metrics t segs =
      Some {| duration := match py_last segs with
                          | Some s => PFloat (seg_end (value s))
                          | None => PInt 0
                          end;
              word_count := len (split t);
              talk_ratio := r;
              filler_count :=
                sum (map (fun word => count (lower t) word) filler_words);
              filler_frequency :=
                if len (split t) >? 0
                then PFloat (F64.div
                               (F64.of_Z (sum (map (fun word => count (lower t) word)
                                                 filler_words)))
                               (F64.of_Z (len (split t))))
                else PInt 0 |}.
Proof.
  destruct (talk_ratio_defined segs) as [r R]. exists r. split; [exact R|].
  unfold extract_call_metrics. rewrite R.
  destruct (len (split t) >? 0) eqn:W; [|reflexivity].
  unfold py_truediv. simpl py_eqb.
  rewrite Z.gtb_ltb in W. apply Z.ltb_lt in W.
  destruct (len (split t) =? 0) eqn:Z0; [apply Z.eqb_eq in Z0; lia|].
  reflexivity.
Qed.


Lemma py_last_snoc {A : Type} (l : list A) (x : A) : py_last (l ++ [x]) = Some x.
Proof.
  destruct l as [|y l]; [reflexivity|].
  simpl. f_equal. apply last_last.
Qed.

(** C6.  The [duration] of the metrics is the [end] of the segment that
    comes last in the input, whatever the time stamps of the others (the
    list is not sorted), and 0 for no segments. *)
Theorem extract_call_metrics_duration :
  (forall (t : string) (segs : list segment) (s : segment),
      exists m,
        extract_call_metrics t (segs ++ [s]) = Some m /\
        duration m = PFloat (seg_end (value s))) /\
  (forall t : string,
      exists m,
        extract_call_metrics t [] = Some m /\ duration m = PInt 0) /\
  (exists m,
      extract_call_metrics "late then early"
        [mk_segment 0 5 9 "late"; mk_segment 1 0 2 "early"] = Some m /\
      duration m = PFloat (F64.of_Z 2)).
Proof.
  repeat split.
  - intros t segs s.
    destruct (extract_call_metrics_fields t (segs ++ [s])) as (r & _ & E).
    eexists. split; [exact E|]. cbn [duration]. now rewrite py_last_snoc.
  - intros t.
    destruct (extract_call_metrics_fields t []) as (r & _ & E).
    eexists. split; [exact E|]. reflexivity.
  - eexists. split; vm_compute; reflexivity.
Qed.

(** ** The timeline *)

Lemma same_or_equal_refl (x : segment) : same_or_equal x x = true.
Proof. unfold same_or_equal. now rewrite Nat.eqb_refl. Qed.

(** A segment is [in] every list that holds it, whatever its time
    stamps: the object is the same, which is tested before any
    comparison of the dicts. *)
Lemma py_in_self (x : segment) (xs : list segment) :
  In x xs -> py_in x xs = true.
Proof.
  intros H. unfold py_in. apply existsb_exists.
  exists x. split; [exact H | apply same_or_equal_refl].
Qed.

Lemma enumerate_map_nth {A B : Type} (f : nat * A -> B) (l : list A) :
  forall k i,
    nth_error (map f (combine (seq k (List.length l)) l)) i
    = option_map (fun x => f ((k + i)%nat, x)) (nth_error l i).
Proof.
  induction l as [|x l IH]; intros k i.
  - now destruct i.
  - destruct i as [|i]; cbn [List.length seq combine map nth_error option_map].
    + now rewrite Nat.add_0_r.
    + rewrite IH. now rewrite Nat.add_succ_r.
Qed.

(** One entry per segment, in the order of the segments. *)
Lemma timeline_data_nth (segs : list segment) (sm : StageMap) (i : nat) :
  nth_error (timeline_data segs sm) i
  = option_map (fun s => timeline_entry sm (i, s)) (nth_error segs i).
Proof. unfold timeline_data, enumerate. now rewrite enumerate_map_nth. Qed.

Lemma timeline_data_length (segs : list segment) (sm : StageMap) :
  List.length (timeline_data segs sm) = List.length segs.
Proof.
  unfold timeline_data, enumerate.
  rewrite length_map, length_combine, length_seq. lia.
Qed.

(** The search succeeds on every segment that one of the stages holds. *)
Lemma find_stage_found (x : segment) (sm : StageMap) :
  In x (List.concat (map snd sm)) -> In (find_stage x sm) (map fst sm).
Proof.
  induction sm as [|[name chunk] rest IH]; simpl; [tauto|].
  intros H. destruct (py_in x chunk) eqn:E; [now left|].
  right. apply IH. apply in_app_or in H. destruct H as [H|H]; [|exact H].
  apply py_in_self in H. congruence.
Qed.

(** Without two segments that [in] confuses, the search finds the stage
    whose slice covers the position of the segment. *)
Lemma find_stage_positional (sm : StageMap) :
  Spec.distinct (List.concat (map snd sm)) ->
  forall (i : nat) (x : segment),
    nth_error (List.concat (map snd sm)) i = Some x ->
    Spec.stage_of_index sm i = Some (find_stage x sm).
Proof.
  induction sm as [|[name chunk] rest IH]; intros D i x Hx.
  - now destruct i.
  - cbn [map snd List.concat] in *. cbn [Spec.stage_of_index find_stage].
    destruct (Nat.ltb_spec i (List.length chunk)) as [Hi|Hi].
    + rewrite nth_error_app1 in Hx by assumption.
      apply nth_error_In in Hx. now rewrite (py_in_self _ _ Hx).
    + destruct (py_in x chunk) eqn:E.
      * apply existsb_exists in E. destruct E as (y & Hy & Eq).
        apply In_nth_error in Hy. destruct Hy as [j Hj].
        assert (Hjl : (j < List.length chunk)%nat)
          by (apply nth_error_Some; congruence).
        assert (i = j); [|lia].
        apply (D i j x y); auto.
        rewrite nth_error_app1; assumption.
      * rewrite nth_error_app2 in Hx by assumption.
        apply IH; [|exact Hx].
        intros i' j' x' y' Hi' Hj' Eq.
        assert ((List.length chunk + i') = (List.length chunk + j'))%nat; [|lia].
        apply (D _ _ x' y'); auto.
        -- rewrite nth_error_app2 by lia.
           now replace (List.length chunk + i' - List.length chunk)%nat with i' by lia.
        -- rewrite nth_error_app2 by lia.
           now replace (List.length chunk + j' - List.length chunk)%nat with j' by lia.
Qed.

Lemma segment_call_keys (segs : list segment) :
  map fst (segment_call segs) = Spec.stage_names.
Proof.
  destruct (segment_call_stages_at segs) as (a & b & c & d & _ & _ & E).
  now rewrite E.
Qed.

Lemma segment_call_concat (segs : list segment) :
  List.concat (map snd (segment_call segs)) = segs.
Proof.
  destruct (segment_call_stages_at segs) as (a & b & c & d & H & _ & E).
  rewrite E. unfold Spec.stages_at. simpl.
  rewrite app_nil_r, !app_assoc, !slice_app by lia. apply slice_all.
Qed.

Lemma stage_label_known (name : string) :
  In name Spec.stage_names ->
  In (stage_label name) Spec.stage_labels /\ stage_label name <> "Unknown".
Proof.
  unfold Spec.stage_names. simpl.
  intros [<-|[<-|[<-|[<-|[<-|[]]]]]]; split;
    try discriminate; vm_compute; tauto.
Qed.

(** With distinct segments, the entry at position [i] carries the label
    of the stage whose slice covers [i]. *)
Lemma timeline_stage_positional (segs : list segment) :
  Spec.distinct segs ->
  forall (i : nat) (e : TimelineEntry),
    nth_error (timeline_data segs (segment_call segs)) i = Some e ->
    exists name,
      Spec.stage_of_index (segment_call segs) i = Some name /\
      tl_Stage e = stage_label name.
Proof.
  intros D i e He. rewrite timeline_data_nth in He.
  destruct (nth_error segs i) as [s|] eqn:Hs; [|discriminate].
  injection He as <-. exists (find_stage s (segment_call segs)).
  split; [|reflexivity].
  apply find_stage_positional; now rewrite segment_call_concat.
Qed.

(** C10.  Against the StageMap that [segment_call] returns for the same
    sequence, every segment is [in] one of the stage lists, the search
    ends on one of the five stage names, and no timeline entry carries
    the label "Unknown". *)
Theorem timeline_stage_never_unknown (segs : list segment) :
  Forall (fun s => exists kv, In kv (segment_call segs) /\ py_in s (snd kv) = true)
    segs /\
  Forall (fun s => In (find_stage s (segment_call segs)) Spec.stage_names
                   /\ find_stage s (segment_call segs) <> "Unknown") segs /\
  Forall (fun e => In (tl_Stage e) Spec.stage_labels /\ tl_Stage e <> "Unknown")
    (timeline_data segs (segment_call segs)).
Proof.
  assert (K : forall s, In s segs ->
                In (find_stage s (segment_call segs)) Spec.stage_names).
  { intros s Hs. rewrite <- (segment_call_keys segs).
    apply find_stage_found. now rewrite segment_call_concat. }
  repeat split; apply Forall_forall.
  - intros s Hs. rewrite <- (segment_call_concat segs) in Hs.
    apply in_concat in Hs. destruct Hs as (chunk & Hc & Hs).
    apply in_map_iff in Hc. destruct Hc as (kv & <- & Hkv).
    exists kv. split; [exact Hkv | now apply py_in_self].
  - intros s Hs. split; [now apply K|].
    intros U. specialize (K s Hs). rewrite U in K.
    unfold Spec.stage_names in K. simpl in K.
    repeat (destruct K as [K|K]; [discriminate|]). exact K.
  - intros e He. unfold timeline_data in He.
    apply in_map_iff in He. destruct He as ([i s] & <- & Hi).
    apply in_combine_r in Hi. cbn [timeline_entry tl_Stage].
    apply stage_label_known. now apply K.
Qed.

(** C7, on [said_twice].  The two segments are equal dicts; the second
    stands at position 1, which the StageMap of the same sequence gives
    to closing, and its timeline entry is labelled with the first stage
    that holds an equal segment, intro. *)
Theorem timeline_stage_said_twice :
  Spec.stage_of_index (segment_call said_twice) 1 = Some "closing" /\
  stage_label "closing" = "Closing" /\
  map tl_Stage (timeline_data said_twice (segment_call said_twice))
    = ["Intro"; "Intro"].
Proof. repeat split; vm_compute; reflexivity. Qed.

(** ** [process_audio] *)

(** [process_audio] against the transcription contract: a failure of the
    taxonomy is shown and leaves the state as it was, the processing
    flag down; an answer is stored and analysed. *)
Lemma process_audio_by_contract (w : World) (st : session_state) :
  process_audio w st =
  match Spec.transcribe w st with
  | inl e => (set_processing st false, Error (Spec.message e))
  | inr r =>
      let st1 := set_segments
                   (set_transcript (set_processing st true)
                      (fst (Spec.input_of r)))
                   (snd (Spec.input_of r)) in
      let st2 := set_call_stages st1 (segment_call (snd (Spec.input_of r))) in
      match extract_call_metrics (fst (Spec.input_of r)) (snd (Spec.input_of r)) with
      | None => (st2, Uncaught)
      | Some m =>
          (set_processing (set_metrics st2 m) false,
           Success "Call analysis complete!")
      end
  end.
Proof.
  unfold process_audio, Spec.transcribe, Spec.source, Spec.credentials,
    transcribe_audio.
  cbn [uploaded_audio audio_url api_key set_processing].
  destruct (uploaded_audio st) as [f|];
    [|destruct (audio_url st) as [[|c u]|]; cbn [truthy]; try reflexivity];
    (destruct (api_key st) as [|c' k]; cbn [truthy negb];
     [destruct (MISTRAL_API_KEY w) as [[|c'' k'']|]; cbn [truthy negb];
      try reflexivity|]);
    cbn [Spec.with_bearer];
    match goal with
    | |- context [requests_post w ?r] => destruct (requests_post w r) as [resp|e]
    end;
    try reflexivity;
    (destruct (status_code resp =? 200)%Z; [|reflexivity]);
    (destruct (response_json resp) as [r|e]; [|reflexivity]);
    cbn [truthy Spec.input_of fst snd];
    unfold set_call_stages, set_segments, set_transcript, set_processing;
    cbn [segments transcript];
    reflexivity.
Qed.

Lemma process_audio_success (w : World) (st : session_state) (r : Transcription) :
  Spec.transcribe w st = inr r ->
  exists m,
    extract_call_metrics (fst (Spec.input_of r)) (snd (Spec.input_of r)) = Some m /\
    process_audio w st =
      ({| api_key := api_key st;
          uploaded_audio := uploaded_audio st;
          audio_url := audio_url st;
          transcript := fst (Spec.input_of r);
          segments := snd (Spec.input_of r);
          processing := false;
          call_stages := segment_call (snd (Spec.input_of r));
          metrics := Some m |},
       Success "Call analysis complete!").
Proof.
  intros H. rewrite process_audio_by_contract, H.
  destruct (extract_call_metrics_fields (fst (Spec.input_of r))
              (snd (Spec.input_of r))) as (x & _ & E).
  cbv zeta. rewrite E. eexists. split; reflexivity.
Qed.

(** C8.  When the analysis fails with an error of the taxonomy (no audio
    provided, missing credentials, provider error, transport error),
    [process_audio] shows the message of the error and returns with the
    transcript, the segments, the stage map and the metrics it found:
    the state is the one before the call, the processing flag down. *)
Theorem process_audio_failure_keeps_results
    (w : World) (st : session_state) (e : Spec.TranscriptionError) :
  Spec.transcribe w st = inl e ->
  process_audio w st = (set_processing st false, Error (Spec.message e)) /\
  Spec.results (fst (process_audio w st)) = Spec.results st /\
  processing (fst (process_audio w st)) = false.
Proof.
  intros H. rewrite process_audio_by_contract, H. repeat split.
Qed.

Lemma process_audio_failure_keeps_results_witness :
  Spec.transcribe out_of_service earlier_results
    = inl (Spec.ProviderError 503 "Service Unavailable") /\
  Spec.results (fst (process_audio out_of_service earlier_results))
    = Spec.results earlier_results.
Proof.
  assert (H : Spec.transcribe out_of_service earlier_results
              = inl (Spec.ProviderError 503 "Service Unavailable"))
    by reflexivity.
  split; [exact H|].
  exact (proj1 (proj2 (process_audio_failure_keeps_results _ _ _ H))).
Defined.

(** A run does not touch what decides the request: the source and the
    credentials. *)
Lemma transcribe_after_run (w w' : World) (st : session_state) :
  Spec.transcribe w' (fst (process_audio w st)) = Spec.transcribe w' st.
Proof.
  rewrite process_audio_by_contract.
  destruct (Spec.transcribe w st) as [e|r]; [reflexivity|].
  cbv zeta. destruct (extract_call_metrics _ _); reflexivity.
Qed.

(** C9.  Two runs of the analysis that receive the same transcript and
    segments end with the same metrics, the same stage map and the same
    timeline, whatever the session held before and whatever else the
    world looks like: the three are the values of a function,
    [Spec.analysis], of the input pair.  In particular a second run after
    the first one changes nothing. *)
Theorem analysis_deterministic
    (w1 w2 : World) (st1 st2 : session_state) (r : Transcription) :
  Spec.transcribe w1 st1 = inr r ->
  Spec.transcribe w2 st2 = inr r ->
  let s1 := fst (process_audio w1 st1) in
  let s2 := fst (process_audio w2 st2) in
  let again := fst (process_audio w1 s1) in
  let '(t, segs) := Spec.input_of r in
  (metrics s1, call_stages s1, timeline_data (segments s1) (call_stages s1))
    = Spec.analysis t segs /\
  (metrics s2, call_stages s2, timeline_data (segments s2) (call_stages s2))
    = Spec.analysis t segs /\
  Spec.results s1 = Spec.results s2 /\
  render_timeline s1 = render_timeline s2 /\
  Spec.results again = Spec.results s1 /\
  render_timeline again = render_timeline s1.
Proof.
  intros H1 H2 s1 s2 again.
  assert (H3 : Spec.transcribe w1 s1 = inr r)
    by (unfold s1; now rewrite transcribe_after_run).
  destruct (process_audio_success _ _ _ H1) as (m1 & M1 & E1).
  destruct (process_audio_success _ _ _ H2) as (m2 & M2 & E2).
  destruct (process_audio_success _ _ _ H3) as (m3 & M3 & E3).
  assert (m2 = m1) by congruence. assert (m3 = m1) by congruence. subst m2 m3.
  unfold again. rewrite E3. clear E3 H3.
  unfold s1, s2. rewrite E1, E2.
  destruct (Spec.input_of r) as [t segs] eqn:I.
  cbn [fst snd] in *. unfold Spec.analysis, Spec.results, render_timeline.
  cbn [fst metrics call_stages segments transcript]. rewrite M1.
  repeat split.
Qed.

Lemma analysis_deterministic_witness :
  let w := answering short_call in
  Spec.transcribe w earlier_results = inr short_call /\
  Spec.transcribe w initial_state = inl Spec.NoAudioProvided /\
  Spec.results (fst (process_audio w earlier_results))
  = Spec.results
      (fst (process_audio w
              {| api_key := ""; uploaded_audio :=
                   Some {| file_name := "call.mp3"; file_data := "ID3" |};
                 audio_url := None; transcript := ""; segments := [];
                 processing := false; call_stages := []; metrics := None |})).
Proof.
  intros w.
  assert (H1 : Spec.transcribe w earlier_results = inr short_call)
    by reflexivity.
  split; [exact H1|]. split; [reflexivity|].
  refine (proj1 (proj2 (proj2 (analysis_deterministic w w earlier_results _
                                 short_call H1 _)))).
  reflexivity.
Defined.

(** ** [int(n * c)] in binary64 against the exact cutoff *)

Lemma digits2_bounds (p : positive) :
  2 ^ (Zpos (digits2_pos p) - 1) <= Zpos p < 2 ^ Zpos (digits2_pos p).
Proof.
  induction p as [p IH|p IH|]; cbn [digits2_pos].
  - rewrite Pos2Z.inj_succ.
    replace (Z.succ (Zpos (digits2_pos p)) - 1) with (Z.succ (Zpos (digits2_pos p) - 1)) by lia.
    rewrite !Z.pow_succ_r by lia. lia.
  - rewrite Pos2Z.inj_succ.
    replace (Z.succ (Zpos (digits2_pos p)) - 1) with (Z.succ (Zpos (digits2_pos p) - 1)) by lia.
    rewrite !Z.pow_succ_r by lia. lia.
  - simpl. lia.
Qed.

Lemma digits2_unique (p : positive) (d : Z) :
  2 ^ (d - 1) <= Zpos p < 2 ^ d -> Zpos (digits2_pos p) = d.
Proof.
  intros [L U]. pose proof (digits2_bounds p) as [L' U'].
  set (d' := Zpos (digits2_pos p)) in *.
  assert (0 < d).
  { destruct (Z_lt_le_dec 0 d) as [P|N]; [exact P|].
    assert (2 ^ d <= 1); [|lia].
    destruct (Z.eq_dec d 0) as [->|]; [simpl; lia|].
    rewrite Z.pow_neg_r by lia. lia. }
  destruct (Z.lt_trichotomy d d') as [C|[C|C]]; [|now symmetry|].
  - assert (2 ^ d <= 2 ^ (d' - 1)) by (apply Z.pow_le_mono_r; lia). lia.
  - assert (2 ^ d' <= 2 ^ (d - 1)) by (apply Z.pow_le_mono_r; lia). lia.
Qed.

Lemma shr_1_nonneg (m : Z) (r s : bool) :
  0 <= m ->
  shr_1 (Build_shr_record m r s) = Build_shr_record (m / 2) (Z.odd m) (r || s).
Proof.
  intros H. destruct m as [|p|p]; [reflexivity| |lia].
  destruct p as [p|p|]; cbn [shr_1 Z.odd].
  - f_equal. rewrite Pos2Z.inj_xI.
    apply Z.div_unique with (r := 1); lia.
  - f_equal. rewrite Pos2Z.inj_xO.
    apply Z.div_unique with (r := 0); lia.
  - reflexivity.
Qed.

Lemma shr_inv_init (X : Z) :
  0 <= X -> shr_inv X 0 (Build_shr_record X false false).
Proof.
  intros H. unfold shr_inv. cbn [shr_m shr_r shr_s]. rewrite Z.pow_0_r.
  repeat split; try lia; try discriminate.
Qed.

Lemma shr_inv_step (X j : Z) (mrs : shr_record) :
  0 <= j -> shr_inv X j mrs -> shr_inv X (j + 1) (shr_1 mrs).
Proof.
  intros Hj. destruct mrs as [m r s]. unfold shr_inv. cbn [shr_m shr_r shr_s].
  intros (Hm & Hrem & Hr & Hs).
  rewrite shr_1_nonneg by assumption. cbn [shr_m shr_r shr_s].
  rewrite Z.pow_add_r, Z.pow_1_r by lia.
  assert (HP : 0 < 2 ^ j) by (apply Z.pow_pos_nonneg; lia).
  set (P := 2 ^ j) in *. clearbody P.
  pose proof (Z.div_mod m 2 ltac:(lia)) as Dm.
  pose proof (Zmod_odd m) as Om.
  set (h := m / 2) in *. clearbody h.
  assert (Hh : 0 <= h) by (pose proof (Z.mod_pos_bound m 2 ltac:(lia)); lia).
  destruct (Z.odd m); rewrite Om in Dm; subst m;
    replace (h * (P * 2)) with (2 * (h * P)) by ring;
    [replace ((2 * h + 1) * P) with (2 * (h * P) + P) in * by ring
    |replace ((2 * h + 0) * P) with (2 * (h * P)) in * by ring];
    set (hP := h * P) in *; clearbody hP;
    destruct r, s; intuition (try lia; try discriminate; try congruence).
Qed.

Lemma shr_inv_iter (X : Z) (p : positive) : forall (j : Z) (mrs : shr_record),
  0 <= j -> shr_inv X j mrs -> shr_inv X (j + Zpos p) (iter_pos shr_1 p mrs).
Proof.
  induction p as [p IH|p IH|]; intros j mrs Hj H; cbn [iter_pos].
  - replace (j + Zpos p~1) with (((j + 1) + Zpos p) + Zpos p) by lia.
    apply IH; [lia|]. apply IH; [lia|]. now apply shr_inv_step.
  - replace (j + Zpos p~0) with ((j + Zpos p) + Zpos p) by lia.
    apply IH; [lia|]. now apply IH.
  - now apply shr_inv_step.
Qed.

Lemma shr_inv_quotient (X j : Z) (mrs : shr_record) :
  0 <= j -> shr_inv X j mrs -> shr_m mrs = X / 2 ^ j.
Proof.
  intros Hj (Hm & Hrem & _).
  apply Z.div_unique with (r := X - shr_m mrs * 2 ^ j); [left; lia | ring].
Qed.

(** Rounding to nearest, ties to even, moves by at most half a unit. *)
Lemma round_nearest_even_close (X j : Z) (mrs : shr_record) :
  0 <= j -> shr_inv X j mrs ->
  let R := round_nearest_even (shr_m mrs) (loc_of_shr_record mrs) in
  shr_m mrs <= R <= shr_m mrs + 1 /\
  2 * X - 2 ^ j <= 2 * (R * 2 ^ j) <= 2 * X + 2 ^ j.
Proof.
  intros Hj. destruct mrs as [m r s]. unfold shr_inv. cbn [shr_m shr_r shr_s].
  intros (Hm & Hrem & Hr & Hs).
  assert (HP : 0 < 2 ^ j) by (apply Z.pow_pos_nonneg; lia).
  set (P := 2 ^ j) in *. clearbody P.
  set (mP := m * P) in *.
  destruct r, s; cbn [loc_of_shr_record round_nearest_even];
    try destruct (Z.even m);
    replace ((m + 1) * P) with (mP + P) by (unfold mP; ring);
    fold mP; clearbody mP;
    intuition (try lia; try discriminate; try congruence).
Qed.

Lemma shr_fexp_long (m e : Z) (l : location) :
  -1074 <= Zdigits2 m + e - 53 -> 0 < Zdigits2 m - 53 ->
  shr_fexp 53 1024 m e l
  = (iter_pos shr_1 (Z.to_pos (Zdigits2 m - 53)) (shr_record_of_loc m l),
     e + (Zdigits2 m - 53)).
Proof.
  intros H1 H2. unfold shr_fexp, fexp, emin.
  replace (Z.max (Zdigits2 m + e - 53) (3 - 1024 - 53) - e)
    with (Zdigits2 m - 53) by lia.
  destruct (Zdigits2 m - 53) as [|k|k] eqn:E; try lia. reflexivity.
Qed.

Lemma shr_fexp_short (m e : Z) (l : location) :
  -1074 <= Zdigits2 m + e - 53 -> Zdigits2 m <= 53 ->
  shr_fexp 53 1024 m e l = (shr_record_of_loc m l, e).
Proof.
  intros H1 H2. unfold shr_fexp, fexp, emin.
  replace (Z.max (Zdigits2 m + e - 53) (3 - 1024 - 53) - e)
    with (Zdigits2 m - 53) by lia.
  destruct (Zdigits2 m - 53) as [|k|k] eqn:E; try lia; reflexivity.
Qed.

Lemma pow2_div_bounds (X D k : Z) :
  0 <= k -> k < D -> 2 ^ (D - 1) <= X < 2 ^ D ->
  2 ^ (D - 1 - k) <= X / 2 ^ k < 2 ^ (D - k).
Proof.
  intros Hk HD [L U].
  assert (HP : 0 < 2 ^ k) by (apply Z.pow_pos_nonneg; lia).
  split.
  - apply Z.div_le_lower_bound; [assumption|].
    rewrite <- Z.pow_add_r by lia. now replace (k + (D - 1 - k)) with (D - 1) by lia.
  - apply Z.div_lt_upper_bound; [assumption|].
    rewrite <- Z.pow_add_r by lia. now replace (k + (D - k)) with D by lia.
Qed.

(** Rounding a long positive mantissa to 53 bits. *)
Lemma binary_round_aux_long (X : positive) (e : Z) :
  let D := Zpos (digits2_pos X) in
  let k := D - 53 in
  0 < k -> -1074 <= e + k -> e + k + 1 <= 971 ->
  exists R : Z,
    2 * Zpos X - 2 ^ k <= 2 * (R * 2 ^ k) <= 2 * Zpos X + 2 ^ k /\
    2 ^ 52 <= R <= 2 ^ 53 /\
    binary_round_aux 53 1024 false (Zpos X) e loc_Exact
    = if R <? 2 ^ 53
      then S754_finite false (Z.to_pos R) (e + k)
      else S754_finite false (Z.to_pos (2 ^ 52)) (e + k + 1).
Proof.
  intros D k Hk Hlo Hhi.
  pose proof (digits2_bounds X) as HX. fold D in HX.
  assert (ED : Zdigits2 (Zpos X) = D) by reflexivity.
  assert (Ek : D - 53 = k) by reflexivity.
  clearbody k. clearbody D.
  unfold binary_round_aux.
  rewrite shr_fexp_long; [|rewrite ED; lia|rewrite ED; lia].
  rewrite ED, Ek. cbn [shr_record_of_loc].
  assert (I : shr_inv (Zpos X) k
                (iter_pos shr_1 (Z.to_pos k) (Build_shr_record (Zpos X) false false))).
  { replace k with (0 + Zpos (Z.to_pos k)) at 1 by lia.
    apply shr_inv_iter; [lia|]. apply shr_inv_init. lia. }
  set (mrs := iter_pos shr_1 (Z.to_pos k) _) in *. clearbody mrs.
  pose proof (shr_inv_quotient (Zpos X) k mrs ltac:(lia) I) as Q.
  pose proof (round_nearest_even_close (Zpos X) k mrs ltac:(lia) I) as (R1 & R2).
  set (R := round_nearest_even (shr_m mrs) (loc_of_shr_record mrs)) in *.
  clearbody R.
  pose proof (pow2_div_bounds (Zpos X) D k ltac:(lia) ltac:(lia) HX) as B.
  rewrite <- Q in B.
  replace (D - 1 - k) with 52 in B by lia.
  replace (D - k) with 53 in B by lia.
  exists R. split; [exact R2|]. split; [lia|].
  destruct (Z.ltb_spec R (2 ^ 53)) as [Lt|Ge].
  - assert (DR : Zdigits2 R = 53).
    { destruct R as [|r|r]; try lia. cbn [Zdigits2].
      apply digits2_unique. change (53 - 1) with 52. lia. }
    rewrite shr_fexp_short; [|rewrite DR; lia|rewrite DR; lia].
    cbn [shr_record_of_loc shr_m].
    destruct R as [|r|r]; try lia.
    replace (e + k <=? 1024 - 53) with true by (symmetry; apply Z.leb_le; lia).
    reflexivity.
  - assert (R = 2 ^ 53) by lia. subst R.
    assert (D54 : Zdigits2 (2 ^ 53) = 54) by (vm_compute; reflexivity).
    rewrite shr_fexp_long; [|rewrite D54; lia|rewrite D54; lia].
    rewrite D54. cbn [shr_record_of_loc].
    change (Z.to_pos (54 - 53)) with 1%positive. cbn [iter_pos].
    rewrite shr_1_nonneg by lia. cbn [shr_m].
    change (2 ^ 53 / 2) with (Zpos (Z.to_pos (2 ^ 52))).
    cbv iota beta.
    replace (e + k + (54 - 53) <=? 1024 - 53) with true
      by (symmetry; apply Z.leb_le; lia).
    reflexivity.
Qed.

Lemma iter_xO_pow (p c : positive) :
  Zpos (Pos.iter xO p c) = Zpos p * 2 ^ Zpos c.
Proof.
  induction c as [|c IH] using Pos.peano_ind.
  - simpl. lia.
  - rewrite Pos.iter_succ, Pos2Z.inj_xO, IH, Pos2Z.inj_succ, Z.pow_succ_r by lia.
    ring.
Qed.

(** A mantissa of at most 53 bits is kept as it is. *)
Lemma binary_round_aux_short (m : positive) (e : Z) :
  Zpos (digits2_pos m) <= 53 ->
  -1074 <= Zpos (digits2_pos m) + e - 53 -> e <= 971 ->
  binary_round_aux 53 1024 false (Zpos m) e loc_Exact = S754_finite false m e.
Proof.
  intros Hd Hlo Hhi. unfold binary_round_aux.
  rewrite shr_fexp_short by (cbn [Zdigits2]; lia).
  cbn [shr_record_of_loc shr_m loc_of_shr_record round_nearest_even].
  rewrite shr_fexp_short by (cbn [Zdigits2]; lia).
  cbn [shr_record_of_loc shr_m].
  replace (e <=? 1024 - 53) with true by (symmetry; apply Z.leb_le; lia).
  reflexivity.
Qed.

(** The float of a positive int below [2^53]: the int itself, its
    mantissa shifted to 53 bits. *)
Lemma of_Z_small (n : positive) :
  let d := Zpos (digits2_pos n) in
  d <= 53 ->
  F64.of_Z (Zpos n)
  = S754_finite false (Z.to_pos (Zpos n * 2 ^ (53 - d))) (d - 53) /\
  2 ^ 52 <= Zpos n * 2 ^ (53 - d) < 2 ^ 53.
Proof.
  intros d Hd.
  pose proof (digits2_bounds n) as Hn. fold d in Hn.
  assert (Ed : Zpos (digits2_pos n) = d) by reflexivity.
  assert (d1 : 1 <= d) by (unfold d; lia).
  clearbody d.
  assert (B : 2 ^ 52 <= Zpos n * 2 ^ (53 - d) < 2 ^ 53).
  { assert (HP : 0 < 2 ^ (53 - d)) by (apply Z.pow_pos_nonneg; lia).
    replace (2 ^ 52) with (2 ^ (d - 1) * 2 ^ (53 - d))
      by (rewrite <- Z.pow_add_r by lia; f_equal; lia).
    replace (2 ^ 53) with (2 ^ d * 2 ^ (53 - d))
      by (rewrite <- Z.pow_add_r by lia; f_equal; lia).
    split; [apply Z.mul_le_mono_nonneg_r | apply Z.mul_lt_mono_pos_r]; lia. }
  split; [|exact B].
  unfold F64.of_Z, binary_normalize, binary_round, F64.prec, F64.emax.
  assert (Ef : fexp 53 1024 (Zpos (digits2_pos n) + 0) = d - 53)
    by (unfold fexp, emin; lia).
  rewrite Ef. unfold shl_align.
  destruct (d - 53 - 0) as [|c|c] eqn:Ec; try lia.
  - assert (H : d = 53) by lia. rewrite H in *. change (53 - 53) with 0.
    rewrite Z.pow_0_r, Z.mul_1_r. cbn [Z.to_pos].
    apply binary_round_aux_short; lia.
  - assert (Es : 53 - d = Zpos c) by lia.
    rewrite Es, <- iter_xO_pow. cbn [Z.to_pos].
    rewrite Es, <- iter_xO_pow in B.
    apply binary_round_aux_short.
    + rewrite (digits2_unique _ 53); [lia|]. change (53 - 1) with 52. exact B.
    + rewrite (digits2_unique _ 53); [lia|]. change (53 - 1) with 52. exact B.
    + lia.
Qed.

Lemma cutoff_arith (n A B Mz p dl Q rho T R c : Z) :
  100 * Mz = p * B + dl -> -20 <= dl <= 20 ->
  n * p = 100 * Q + rho -> (rho = 0 \/ 5 <= rho <= 95) ->
  2 ^ 52 <= n * A < 2 ^ 53 -> 16 <= A -> 2 ^ 53 <= B ->
  2 ^ 52 <= T <= 2 ^ 53 -> A * B = T * c ->
  2 * (n * A * Mz) - T <= 2 * (R * T) <= 2 * (n * A * Mz) + T ->
  Q * (A * B) <= R * T < (Q + 1) * (A * B).
Proof.
  intros Hc Hd Hq Hrho HNA HA HB HT Hm HR.
  change (2 ^ 52) with 4503599627370496 in *.
  change (2 ^ 53) with 9007199254740992 in *.
  assert (HX : 100 * (n * A * Mz) = 100 * (Q * (A * B)) + rho * (A * B) + dl * (n * A)).
  { replace (100 * (n * A * Mz)) with (n * A * (100 * Mz)) by ring.
    rewrite Hc.
    replace (n * A * (p * B + dl)) with ((n * p) * (A * B) + dl * (n * A)) by ring.
    rewrite Hq. ring. }
  assert (HW : 16 * 9007199254740992 <= A * B) by nia.
  set (W := A * B) in *. set (NA := n * A) in *. set (X := NA * Mz) in *.
  set (G := Q * W) in *.
  assert (HDN : -20 * 9007199254740992 <= dl * NA <= 20 * 9007199254740992) by nia.
  set (DN := dl * NA) in *.
  replace ((Q + 1) * W) with (G + W) by (unfold G; ring).
  set (Y := R * T) in *.
  split.
  - destruct Hrho as [->|Hrho].
    + assert (Hgap : G - T < Y) by lia.
      unfold G, Y in *. rewrite Hm in Hgap |- *.
      replace (Q * (T * c)) with ((Q * c) * T) in Hgap |- * by ring.
      assert (L : Q * c < R + 1).
      { apply (Z.mul_lt_mono_pos_r T); [lia|].
        replace ((R + 1) * T) with (R * T + T) by ring. lia. }
      apply Z.mul_le_mono_nonneg_r; lia.
    + assert (5 * W <= rho * W) by nia. lia.
  - assert (rho * W <= 95 * W) by nia. lia.
Qed.

Lemma py_int_finite_neg (m : positive) (e : Z) :
  e < 0 -> py_int (S754_finite false m e) = Zpos m / 2 ^ (- e).
Proof. intros H. destruct e; try lia. reflexivity. Qed.

Lemma rem100_of_multiple_of_5 (a p : Z) :
  p mod 5 = 0 -> (a * p) mod 100 = 0 \/ 5 <= (a * p) mod 100 <= 95.
Proof.
  intros H. apply Z.mod_divide in H; [|lia]. destruct H as [p' ->].
  replace (a * (p' * 5)) with (5 * (a * p')) by ring.
  change 100 with (5 * 20). rewrite Z.mul_mod_distr_l by lia.
  pose proof (Z.mod_pos_bound (a * p') 20 ltac:(lia)). lia.
Qed.

Section Cutoff.
Variables (M : positive) (E p dl : Z).
Hypothesis HM : 2 ^ 52 <= Zpos M < 2 ^ 53.
Hypothesis HE : 53 <= E <= 55.
Hypothesis Hc : 100 * Zpos M = p * 2 ^ E + dl.
Hypothesis Hdl : -20 <= dl <= 20.
Hypothesis Hp : p mod 5 = 0.

Lemma int_scaled_exact (n : Z) :
  0 <= n < 2 ^ 49 ->
  int_scaled n (S754_finite false M (- E)) = Spec.cutoff n p.
Proof.
  intros Hn. destruct n as [|np|np]; [reflexivity| |lia].
  pose proof (digits2_bounds np) as Hd.
  set (d := Zpos (digits2_pos np)) in *.
  assert (d1 : 1 <= d) by (unfold d; lia).
  assert (d49 : d <= 49).
  { destruct (Z_le_gt_dec d 49) as [L|G]; [exact L|].
    assert (2 ^ 49 <= 2 ^ (d - 1)) by (apply Z.pow_le_mono_r; lia). lia. }
  destruct (of_Z_small np ltac:(fold d; lia)) as [EF BNA]. fold d in EF, BNA.
  clearbody d.
  unfold int_scaled. rewrite EF. unfold F64.mul, SFmul, F64.prec, F64.emax.
  cbn [xorb].
  set (NA := Zpos np * 2 ^ (53 - d)) in *.
  set (X := (Z.to_pos NA * M)%positive).
  assert (EX : Zpos X = NA * Zpos M)
    by (unfold X; rewrite Pos2Z.inj_mul, Z2Pos.id by lia; reflexivity).
  assert (BX : 2 ^ 104 <= Zpos X < 2 ^ 106).
  { rewrite EX. change (2 ^ 104) with (2 ^ 52 * 2 ^ 52).
    change (2 ^ 106) with (2 ^ 53 * 2 ^ 53).
    split; [apply Z.mul_le_mono_nonneg | apply Z.mul_lt_mono_nonneg]; lia. }
  pose proof (digits2_bounds X) as HD.
  set (D := Zpos (digits2_pos X)) in *.
  assert (D105 : 105 <= D <= 106).
  { split.
    - destruct (Z_le_gt_dec 105 D) as [L|G]; [exact L|].
      assert (2 ^ D <= 2 ^ 104) by (apply Z.pow_le_mono_r; lia). lia.
    - destruct (Z_le_gt_dec D 106) as [L|G]; [exact L|].
      assert (2 ^ 106 <= 2 ^ (D - 1)) by (apply Z.pow_le_mono_r; lia). lia. }
  destruct (binary_round_aux_long X (d - 53 + - E)) as (R & HR & BR & ER);
    fold D; try lia.
  fold D in HR, ER. rewrite ER. clear ER.
  set (k := D - 53) in *.
  set (q := - (d - 53 + - E + k)).
  assert (Hq : 2 <= q) by (unfold q, k; lia).
  match goal with
  | |- py_int ?f = _ => assert (EI : py_int f = R / 2 ^ q)
  end.
  { destruct (Z.ltb_spec R (2 ^ 53)) as [Lt|Ge].
    - rewrite py_int_finite_neg by lia. rewrite Z2Pos.id by lia. reflexivity.
    - rewrite py_int_finite_neg by lia.
      assert (R = 2 ^ 53) by lia. subst R.
      replace (- (d - 53 + - E + k + 1)) with (q - 1) by (unfold q; lia).
      change (Zpos (Z.to_pos (2 ^ 52))) with (2 ^ 52).
      change (2 ^ 53) with (2 * 2 ^ 52).
      replace (2 ^ q) with (2 * 2 ^ (q - 1))
        by (rewrite <- Z.pow_succ_r by lia; f_equal; lia).
      rewrite Z.div_mul_cancel_l; [reflexivity| |lia].
      apply Z.pow_nonzero; lia. }
  rewrite EI. unfold Spec.cutoff.
  assert (HT : 0 < 2 ^ k) by (apply Z.pow_pos_nonneg; unfold k; lia).
  assert (EW : 2 ^ q * 2 ^ k = 2 ^ (53 - d) * 2 ^ E).
  { rewrite <- !Z.pow_add_r by (unfold k; lia). f_equal. unfold q. lia. }
  rewrite <- (Z.div_mul_cancel_r R (2 ^ q) (2 ^ k)) by lia.
  rewrite EW.
  pose proof (Z.div_mod (Zpos np * p) 100 ltac:(lia)) as Hdm.
  pose proof (rem100_of_multiple_of_5 (Zpos np) p Hp) as Hrho.
  set (Q := Zpos np * p / 100) in *. set (rho := (Zpos np * p) mod 100) in *.
  assert (Bounds : Q * (2 ^ (53 - d) * 2 ^ E) <= R * 2 ^ k
                   < (Q + 1) * (2 ^ (53 - d) * 2 ^ E)).
  { apply (cutoff_arith (Zpos np) (2 ^ (53 - d)) (2 ^ E) (Zpos M) p dl Q rho
             (2 ^ k) R (2 ^ q)); try assumption.
    - change 16 with (2 ^ 4). apply Z.pow_le_mono_r; lia.
    - apply Z.pow_le_mono_r; lia.
    - split; apply Z.pow_le_mono_r; unfold k; lia.
    - rewrite <- EW. ring.
    - fold NA. rewrite <- EX. exact HR. }
  symmetry.
  apply Z.div_unique with (r := R * 2 ^ k - 2 ^ (53 - d) * 2 ^ E * Q);
    [left; lia | ring].
Qed.
End Cutoff.

Lemma int_scaled_c015 (n : Z) :
  0 <= n < 2 ^ 49 -> int_scaled n F64.c015 = Spec.cutoff n 15.
Proof.
  apply (int_scaled_exact 5404319552844595 55 15 (-20));
    try reflexivity; lia.
Qed.

Lemma int_scaled_c045 (n : Z) :
  0 <= n < 2 ^ 49 -> int_scaled n F64.c045 = Spec.cutoff n 45.
Proof.
  apply (int_scaled_exact 8106479329266893 54 45 20);
    try reflexivity; lia.
Qed.

Lemma int_scaled_c065 (n : Z) :
  0 <= n < 2 ^ 49 -> int_scaled n F64.c065 = Spec.cutoff n 65.
Proof.
  apply (int_scaled_exact 5854679515581645 53 65 20);
    try reflexivity; lia.
Qed.

Lemma int_scaled_c085 (n : Z) :
  0 <= n < 2 ^ 49 -> int_scaled n F64.c085 = Spec.cutoff n 85.
Proof.
  apply (int_scaled_exact 7656119366529843 53 85 (-20));
    try reflexivity; lia.
Qed.

(** The float literals are the correctly rounded quotients 15/100, ...,
    85/100. *)
Lemma literals_nearest :
  F64.c015 = F64.div (F64.of_Z 15) (F64.of_Z 100) /\
  F64.c045 = F64.div (F64.of_Z 45) (F64.of_Z 100) /\
  F64.c065 = F64.div (F64.of_Z 65) (F64.of_Z 100) /\
  F64.c085 = F64.div (F64.of_Z 85) (F64.of_Z 100).
Proof. repeat split; vm_compute; reflexivity. Qed.

(** Far beyond any list that fits in memory the float product is no
    longer the exact one: at [n = 2^50 - 1] the 0.65 cutoff is one more
    than [floor(n * 65 / 100)]. *)
Remark int_scaled_beyond_range :
  int_scaled (2 ^ 50 - 1) F64.c065 = Spec.cutoff (2 ^ 50 - 1) 65 + 1.
Proof. vm_compute. reflexivity. Qed.

Lemma intro_nonempty (segs : list segment) :
  segs <> [] ->
  exists s chunk, dict_get (segment_call segs) "intro" = Some (s :: chunk).
Proof.
  intros N.
  destruct (segment_call_stages_at segs) as (a & b & c & d & H & Ha & E).
  specialize (Ha N). rewrite E. unfold Spec.stages_at. cbn [dict_get].
  change (("intro" =? "intro")%string) with true. cbv iota.
  unfold Spec.slice. rewrite skipn_0.
  destruct segs as [|s segs]; [now elim N|].
  destruct a as [|a]; [lia|].
  replace (S a - 0)%nat with (S a) by lia. cbn [firstn]. eauto.
Qed.

(** C2.  On a non-empty sequence of length [n], [segment_call] cuts at
    [intro_end = max(1, int(n * 0.15))],
    [issue_end = max(intro_end, int(n * 0.45))],
    [resolution_end = max(issue_end, int(n * 0.65))] and
    [objection_end = max(resolution_end, int(n * 0.85))]; for every [n]
    below [2^49] each [int(n * c)] in binary64 is the exact
    [floor(n * c)], so the four indices are those of the specification;
    the intro stage is never empty when [n > 0]; one segment goes to
    intro and leaves the other four stages empty; no segment leaves all
    five empty. *)
Theorem segment_call_boundaries :
  (forall segs : list segment,
      segs <> [] ->
      let n := len segs in
      let intro_end := Z.max 1 (int_scaled n F64.c015) in
      let issue_end := Z.max intro_end (int_scaled n F64.c045) in
      let resolution_end := Z.max issue_end (int_scaled n F64.c065) in
      let objection_end := Z.max resolution_end (int_scaled n F64.c085) in
      segment_call segs =
        [("intro", py_slice segs None (Some intro_end));
         ("issue_description", py_slice segs (Some intro_end) (Some issue_end));
         ("resolution", py_slice segs (Some issue_end) (Some resolution_end));
         ("objection", py_slice segs (Some resolution_end) (Some objection_end));
         ("closing", py_slice segs (Some objection_end) None)]) /\
  (forall n : Z,
      0 <= n < 2 ^ 49 ->
      Z.max 1 (int_scaled n F64.c015) = Spec.intro_end n /\
      Z.max (Spec.intro_end n) (int_scaled n F64.c045) = Spec.issue_end n /\
      Z.max (Spec.issue_end n) (int_scaled n F64.c065) = Spec.resolution_end n /\
      Z.max (Spec.resolution_end n) (int_scaled n F64.c085)
        = Spec.objection_end n) /\
  (forall segs : list segment,
      segs <> [] -> len segs < 2 ^ 49 ->
      let n := len segs in
      segment_call segs =
        [("intro", py_slice segs None (Some (Spec.intro_end n)));
         ("issue_description",
           py_slice segs (Some (Spec.intro_end n)) (Some (Spec.issue_end n)));
         ("resolution",
           py_slice segs (Some (Spec.issue_end n)) (Some (Spec.resolution_end n)));
         ("objection",
           py_slice segs (Some (Spec.resolution_end n))
             (Some (Spec.objection_end n)));
         ("closing", py_slice segs (Some (Spec.objection_end n)) None)]) /\
  (forall segs : list segment,
      segs <> [] ->
      exists s chunk, dict_get (segment_call segs) "intro" = Some (s :: chunk)) /\
  (forall s : segment,
      segment_call [s] =
        [("intro", [s]); ("issue_description", []); ("resolution", []);
         ("objection", []); ("closing", [])]) /\
  segment_call [] =
    [("intro", []); ("issue_description", []); ("resolution", []);
     ("objection", []); ("closing", [])].
Proof.
  assert (P : forall segs : list segment, segs <> [] -> 0 < len segs).
  { intros [|s l] N; [now elim N | unfold len; simpl; lia]. }
  assert (B : forall n : Z,
      0 <= n < 2 ^ 49 ->
      Z.max 1 (int_scaled n F64.c015) = Spec.intro_end n /\
      Z.max (Spec.intro_end n) (int_scaled n F64.c045) = Spec.issue_end n /\
      Z.max (Spec.issue_end n) (int_scaled n F64.c065) = Spec.resolution_end n /\
      Z.max (Spec.resolution_end n) (int_scaled n F64.c085)
        = Spec.objection_end n).
  { intros n Hn.
    rewrite int_scaled_c015, int_scaled_c045, int_scaled_c065, int_scaled_c085
      by assumption.
    repeat split. }
  split; [|split; [|split; [|split; [|split]]]].
  - intros segs N. apply segment_call_nonempty. now apply P.
  - exact B.
  - intros segs N Hlt n.
    rewrite (segment_call_nonempty segs (P segs N)). cbv zeta. fold n.
    destruct (B n) as (E1 & E2 & E3 & E4); [unfold n, len in *; lia|].
    now rewrite E1, E2, E3, E4.
  - exact intro_nonempty.
  - intros s. vm_compute. reflexivity.
  - reflexivity.
Qed.

Lemma segment_call_boundaries_witness :
  said_twice <> [] /\ len said_twice < 2 ^ 49 /\
  Spec.intro_end (len said_twice) = 1 /\
  Spec.objection_end (len said_twice) = 1 /\
  segment_call said_twice =
    [("intro", py_slice said_twice None (Some 1));
     ("issue_description", py_slice said_twice (Some 1) (Some 1));
     ("resolution", py_slice said_twice (Some 1) (Some 1));
     ("objection", py_slice said_twice (Some 1) (Some 1));
     ("closing", py_slice said_twice (Some 1) None)].
Proof.
  assert (N : said_twice <> []) by discriminate.
  assert (L : len said_twice < 2 ^ 49) by (vm_compute; reflexivity).
  split; [exact N|]. split; [exact L|].
  split; [reflexivity|]. split; [reflexivity|].
  exact (proj1 (proj2 (proj2 segment_call_boundaries)) said_twice N L).
Defined.

(** * Further properties *)

(** ** The stage segmenter: sizes *)

Lemma py_slice_length {A : Type} (l : list A) (lo hi : option Z) :
  List.length (py_slice l lo hi)
  = Nat.min
      (Z.to_nat
         (match hi with Some i => slice_index (len l) i | None => len l end
          - match lo with Some i => slice_index (len l) i | None => 0 end))
      (Z.to_nat (len l)
       - Z.to_nat match lo with Some i => slice_index (len l) i | None => 0 end).
Proof.
  unfold py_slice. rewrite length_firstn, length_skipn.
  unfold len. now rewrite Nat2Z.id.
Qed.

Lemma stage_of_index_by_sizes (d1 d2 : StageMap) :
  map fst d1 = map fst d2 -> stage_sizes d1 = stage_sizes d2 ->
  forall i, Spec.stage_of_index d1 i = Spec.stage_of_index d2 i.
Proof.
  revert d2. induction d1 as [|[k1 v1] d1 IH]; intros [|[k2 v2] d2] K S i;
    try discriminate; [reflexivity|].
  cbn in K, S. injection K as -> K. injection S as E S.
  cbn [Spec.stage_of_index]. rewrite E.
  destruct (_ <? _)%nat; [reflexivity|]. now apply IH.
Qed.

Lemma segment_call_exact (segs : list segment) :
  segs <> [] -> len segs < 2 ^ 49 ->
  segment_call segs =
    [("intro", py_slice segs None (Some (Spec.intro_end (len segs))));
     ("issue_description",
       py_slice segs (Some (Spec.intro_end (len segs)))
         (Some (Spec.issue_end (len segs))));
     ("resolution",
       py_slice segs (Some (Spec.issue_end (len segs)))
         (Some (Spec.resolution_end (len segs))));
     ("objection",
       py_slice segs (Some (Spec.resolution_end (len segs)))
         (Some (Spec.objection_end (len segs))));
     ("closing", py_slice segs (Some (Spec.objection_end (len segs))) None)].
Proof.
  intros N L.
  assert (P : 0 < len segs)
    by (destruct segs; [now elim N | unfold len; simpl; lia]).
  rewrite (segment_call_nonempty segs P). cbv zeta.
  rewrite int_scaled_c015, int_scaled_c045, int_scaled_c065, int_scaled_c085
    by lia.
  reflexivity.
Qed.

(** The exact cut indices are ordered and stay within the list. *)
Lemma cut_indices_in_range (n : Z) :
  1 <= n ->
  1 <= Spec.intro_end n <= Spec.issue_end n /\
  Spec.issue_end n <= Spec.resolution_end n <= Spec.objection_end n /\
  Spec.objection_end n <= n /\
  (2 <= n -> Spec.objection_end n < n).
Proof.
  intros H.
  unfold Spec.objection_end, Spec.resolution_end, Spec.issue_end,
    Spec.intro_end, Spec.cutoff.
  Z.to_euclidean_division_equations. lia.
Qed.

Lemma stage_sizes_cut (segs : list segment) :
  segs <> [] -> len segs < 2 ^ 49 ->
  stage_sizes (segment_call segs)
  = map Z.to_nat
      [Spec.intro_end (len segs);
       Spec.issue_end (len segs) - Spec.intro_end (len segs);
       Spec.resolution_end (len segs) - Spec.issue_end (len segs);
       Spec.objection_end (len segs) - Spec.resolution_end (len segs);
       len segs - Spec.objection_end (len segs)].
Proof.
  intros N L.
  assert (P : 1 <= len segs)
    by (destruct segs; [now elim N | unfold len; simpl; lia]).
  pose proof (cut_indices_in_range (len segs) P) as (H1 & H2 & H3 & _).
  rewrite (segment_call_exact segs N L). unfold stage_sizes.
  cbn [map snd]. rewrite !py_slice_length.
  rewrite !slice_index_nonneg by lia.
  repeat f_equal; lia.
Qed.

(** X1.  On a non-empty list of fewer than [2^49] segments the four cut
    indices are ordered and at most [n], so no slice is clamped: the
    stages have exactly [intro_end], [issue_end - intro_end],
    [resolution_end - issue_end], [objection_end - resolution_end] and
    [n - objection_end] segments. *)
Theorem stage_sizes_exact (segs : list segment) :
  segs <> [] -> len segs < 2 ^ 49 ->
  let n := len segs in
  1 <= Spec.intro_end n <= Spec.issue_end n /\
  Spec.issue_end n <= Spec.resolution_end n <= Spec.objection_end n /\
  Spec.objection_end n <= n /\
  stage_sizes (segment_call segs)
  = map Z.to_nat
      [Spec.intro_end n;
       Spec.issue_end n - Spec.intro_end n;
       Spec.resolution_end n - Spec.issue_end n;
       Spec.objection_end n - Spec.resolution_end n;
       n - Spec.objection_end n].
Proof.
  intros N L n.
  assert (P : 1 <= n)
    by (destruct segs; [now elim N | unfold n, len; simpl; lia]).
  pose proof (cut_indices_in_range n P) as (H1 & H2 & H3 & _).
  repeat split; try lia. now apply stage_sizes_cut.
Qed.

Lemma stage_sizes_exact_witness :
  said_twice <> [] /\ len said_twice < 2 ^ 49 /\
  stage_sizes (segment_call said_twice) = [1; 0; 0; 0; 1]%nat.
Proof.
  assert (N : said_twice <> []) by discriminate.
  assert (L : len said_twice < 2 ^ 49) by (vm_compute; reflexivity).
  split; [exact N|]. split; [exact L|].
  exact (proj2 (proj2 (proj2 (stage_sizes_exact said_twice N L)))).
Defined.

(** X2.  Below [2^49] segments, every one of the five stages gets at
    least one segment exactly when there are at least five segments. *)
Theorem all_stages_nonempty_iff (segs : list segment) :
  len segs < 2 ^ 49 ->
  Forall (fun k => (0 < k)%nat) (stage_sizes (segment_call segs))
  <-> 5 <= len segs.
Proof.
  intros L. destruct segs as [|s segs'].
  - split.
    + intros F. inversion F. lia.
    + unfold len. simpl. lia.
  - set (segs := s :: segs') in *.
    assert (N : segs <> []) by discriminate.
    assert (P : 1 <= len segs) by (unfold len; simpl; lia).
    rewrite (stage_sizes_cut segs N L). cbn [map].
    set (n := len segs) in *. clearbody n.
    assert (E : (0 < Z.to_nat (Spec.intro_end n) /\
                 0 < Z.to_nat (Spec.issue_end n - Spec.intro_end n) /\
                 0 < Z.to_nat (Spec.resolution_end n - Spec.issue_end n) /\
                 0 < Z.to_nat (Spec.objection_end n - Spec.resolution_end n) /\
                 0 < Z.to_nat (n - Spec.objection_end n))%nat <-> 5 <= n).
    { unfold Spec.objection_end, Spec.resolution_end, Spec.issue_end,
        Spec.intro_end, Spec.cutoff.
      Z.to_euclidean_division_equations. lia. }
    rewrite <- E, !Forall_cons_iff. split.
    + intros (H1 & H2 & H3 & H4 & H5 & _). repeat split; assumption.
    + intros (H1 & H2 & H3 & H4 & H5). repeat split; try assumption.
      constructor.
Qed.

Lemma all_stages_nonempty_iff_witness :
  let segs := short_answer ++ said_twice ++ [mk_segment 9 1 2 "Bye."] in
  len segs < 2 ^ 49 /\
  Forall (fun k => (0 < k)%nat) (stage_sizes (segment_call segs)).
Proof.
  intros segs.
  assert (L : len segs < 2 ^ 49) by (vm_compute; reflexivity).
  split; [exact L|].
  apply (proj2 (all_stages_nonempty_iff segs L)).
  vm_compute. discriminate.
Defined.

(** X3.  The partition is positional: two lists of the same length get
    stages of the same sizes, and every position falls into the same
    stage, whatever the segments say. *)
Theorem stages_depend_on_length (l1 l2 : list segment) :
  List.length l1 = List.length l2 ->
  stage_sizes (segment_call l1) = stage_sizes (segment_call l2) /\
  forall i,
    Spec.stage_of_index (segment_call l1) i
    = Spec.stage_of_index (segment_call l2) i.
Proof.
  intros E.
  assert (S : stage_sizes (segment_call l1) = stage_sizes (segment_call l2)).
  { destruct l1 as [|x1 l1], l2 as [|x2 l2]; try discriminate; [reflexivity|].
    assert (En : len (x1 :: l1) = len (x2 :: l2)) by (unfold len; now rewrite E).
    rewrite !segment_call_nonempty by (unfold len; simpl; lia).
    unfold stage_sizes. cbn [map snd]. rewrite !py_slice_length.
    now rewrite En. }
  split; [exact S|].
  apply stage_of_index_by_sizes; [|exact S].
  now rewrite !segment_call_keys.
Qed.

Lemma stages_depend_on_length_witness :
  List.length said_twice = List.length short_answer /\
  stage_sizes (segment_call said_twice)
  = stage_sizes (segment_call short_answer).
Proof.
  assert (E : List.length said_twice = List.length short_answer)
    by reflexivity.
  split; [exact E|].
  exact (proj1 (stages_depend_on_length said_twice short_answer E)).
Defined.

(** ** The timeline and the metrics *)

Lemma timeline_durations_of (d : StageMap) (l : list (nat * segment)) :
  map tl_Duration
    (filter (fun e => String.eqb (tl_Speaker e) "Agent")
       (map (timeline_entry d) l))
  = map seg_duration
      (map snd (filter (fun item => Bool.eqb (Nat.even (fst item)) true) l)) /\
  map tl_Duration
    (filter (fun e => String.eqb (tl_Speaker e) "Customer")
       (map (timeline_entry d) l))
  = map seg_duration
      (map snd (filter (fun item => Bool.eqb (Nat.even (fst item)) false) l)).
Proof.
  induction l as [|[i s] l [IH1 IH2]]; [split; reflexivity|].
  cbn [map filter fst timeline_entry tl_Speaker]. rewrite mod2_even.
  destruct (Nat.even i); cbn [String.eqb Ascii.eqb Bool.eqb andb map snd
                                tl_Duration];
    split; simpl; congruence.
Qed.

(** X4.  The timeline and the talk ratio agree on who spoke how long:
    the durations of the entries labelled Agent add up to the agent
    total of [calculate_talk_ratio], those labelled Customer to the
    customer total, so the talk ratio is the quotient of the two timeline
    totals (the second replaced by 1 when it is 0), whatever stage map
    the timeline is built against. *)
Theorem timeline_totals (segs : list segment) (d : StageMap) :
  let tl := timeline_data segs d in
  spoken "Agent" tl = Spec.agent_duration segs /\
  spoken "Customer" tl = Spec.customer_duration segs /\
  calculate_talk_ratio segs
  = py_truediv (spoken "Agent" tl)
      (if py_eqb (spoken "Customer" tl) (PInt 0)
       then PInt 1 else spoken "Customer" tl).
Proof.
  intros tl.
  destruct (timeline_durations_of d (enumerate segs)) as [A C].
  assert (EA : spoken "Agent" tl = Spec.agent_duration segs).
  { unfold spoken, tl, timeline_data. rewrite A. reflexivity. }
  assert (EC : spoken "Customer" tl = Spec.customer_duration segs).
  { unfold spoken, tl, timeline_data. rewrite C. reflexivity. }
  repeat split; try assumption.
  rewrite EA, EC. apply talk_ratio_divides.
Qed.

Lemma length_append (a b : string) :
  String.length (a ++ b)%string = (String.length a + String.length b)%nat.
Proof. induction a as [|c a IH]; simpl; [reflexivity | now rewrite IH]. Qed.

Lemma length_substring0 (m : nat) : forall s : string,
  String.length (substring 0 m s) = Nat.min m (String.length s).
Proof.
  induction m as [|m IH]; intros [|c s]; simpl; try reflexivity.
  now rewrite IH.
Qed.

Lemma substring0_append (m : nat) : forall s x : string,
  (m <= String.length s)%nat ->
  substring 0 m (substring 0 m s ++ x)%string = substring 0 m s.
Proof.
  induction m as [|m IH]; intros [|c s] x H; simpl in *; try lia.
  - now destruct x.
  - now destruct x.
  - rewrite IH by lia. reflexivity.
Qed.

(** X5.  The text of a timeline entry keeps the first 50 characters of
    the segment text and is never longer than 53 characters: a text of
    at most 50 characters is kept, a longer one becomes its first 50
    characters followed by three dots (so a text of 51 or 52 characters
    gets longer). *)
Theorem timeline_text_bounded (d : StageMap) (i : nat) (s : segment) :
  let t := seg_text (value s) in
  let shown := tl_Text (timeline_entry d (i, s)) in
  (String.length shown <= 53)%nat /\
  String.length shown
  = (if (50 <? String.length t)%nat then 53%nat else String.length t) /\
  substring 0 50 shown = substring 0 50 t /\
  shown = (if (50 <? String.length t)%nat
           then (substring 0 50 t ++ "...")%string else t).
Proof.
  intros t shown. unfold shown. cbn [timeline_entry tl_Text]. fold t.
  destruct (Nat.ltb_spec 50 (String.length t)) as [L|L].
  - rewrite length_append, length_substring0.
    rewrite substring0_append by lia.
    change (String.length "...") with 3%nat.
    repeat split; lia.
  - repeat split. lia.
Qed.

Lemma split_from_some (s : string) : forall w, split_from (Some w) s <> [].
Proof.
  induction s as [|c s IH]; intros w; simpl; [discriminate|].
  destruct (is_space c); [discriminate | apply IH].
Qed.

Lemma split_blank (s : string) :
  split s = [] <-> forallb is_space (list_ascii_of_string s) = true.
Proof.
  unfold split. induction s as [|c s IH]; simpl; [tauto|].
  destruct (is_space c); simpl; [exact IH|].
  split; [|discriminate]. intros H. now apply split_from_some in H.
Qed.

Lemma lower_char_space (c : ascii) : is_space c = true -> lower_char c = c.
Proof.
  destruct c as [[] [] [] [] [] [] [] []]; vm_compute;
    intros H; try reflexivity; discriminate.
Qed.

Lemma count_from_blank (sub' : string) (a : ascii) (s : string) :
  is_space a = false ->
  forallb is_space (list_ascii_of_string s) = true ->
  forall k, count_from k (lower s) (String a sub') = 0.
Proof.
  intros Ha. induction s as [|c s IH]; intros B k; [reflexivity|].
  simpl in B. apply andb_prop in B. destruct B as [Bc Bs].
  change (lower (String c s)) with (String (lower_char c) (lower s)).
  cbn [count_from]. destruct k as [|k]; [|now apply IH].
  cbn [prefix]. rewrite (lower_char_space c Bc).
  destruct (ascii_dec a c) as [->|_]; [congruence|]. now apply IH.
Qed.

(** X6.  Whenever [extract_call_metrics] returns metrics, a transcript
    without a word (empty, or white space only) has word count 0, filler
    count 0 and the int 0 as filler frequency, the division being
    skipped, and any other transcript has a positive word count.  With no
    segments it always returns. *)
Theorem blank_transcript :
  (forall (t : string) (segs : list segment) (m : Metrics),
      extract_call_metrics t segs = Some m ->
      (forallb is_space (list_ascii_of_string t) = true /\
       word_count m = 0 /\ filler_count m = 0 /\
       filler_frequency m = PInt 0)
      \/ (forallb is_space (list_ascii_of_string t) = false /\
          0 < word_count m)) /\
  (forall t : string, exists m, extract_call_metrics t [] = Some m).
Proof.
  split.
  - intros t segs m H.
    destruct (extract_call_metrics_fields t segs) as (r & _ & E).
    rewrite E in H. injection H as <-.
    cbn [word_count filler_count filler_frequency].
    destruct (forallb is_space (list_ascii_of_string t)) eqn:B.
    + left. assert (W : split t = []) by now apply split_blank.
      rewrite W. unfold len. cbn [List.length Z.of_nat Z.gtb Z.compare].
      repeat split.
      unfold filler_words, count. cbn [map].
      rewrite !count_from_blank by (assumption || reflexivity).
      reflexivity.
    + right. split; [reflexivity|].
      destruct (split t) eqn:W.
      * apply split_blank in W. congruence.
      * unfold len. simpl. lia.
  - intros t. destruct (extract_call_metrics_fields t []) as (r & _ & E).
    eauto.
Qed.

Lemma blank_transcript_witness :
  exists m,
    extract_call_metrics "  " said_twice = Some m /\
    word_count m = 0 /\ filler_frequency m = PInt 0.
Proof.
  destruct (extract_call_metrics "  " said_twice) as [m|] eqn:E;
    [|discriminate E].
  exists m. split; [reflexivity|].
  destruct (proj1 blank_transcript "  " said_twice m E)
    as [(_ & W & _ & F)|(B & _)].
  - split; assumption.
  - discriminate B.
Defined.

(** ** The transcription client *)

(** [transcribe_audio] by the request it sends, if any. *)
Lemma transcribe_audio_by_request (w : World) (st : session_state)
    (u : option string) (f : option UploadedFile) :
  transcribe_audio w st u f =
  match request_of w st u f with
  | Some r =>
      match requests_post w r with
      | inr e => (None, Some ("Exception: " ++ e)%string)
      | inl response =>
          if status_code response =? 200 then
            match response_json response with
            | inl result => (Some result, None)
            | inr e => (None, Some ("Exception: " ++ e)%string)
            end
          else
            (None, Some ("API Error: " ++ str_Z (status_code response)
                           ++ " - " ++ response_text response)%string)
      end
  | None =>
      (None,
       Some match Spec.credentials w st with
            | None => "API key is required. Please provide a Mistral API key in the API Configuration section."
            | Some _ => "No audio provided"
            end)
  end.
Proof.
  unfold transcribe_audio, request_of, Spec.credentials.
  destruct (api_key st) as [|c k]; cbn [truthy negb];
    [destruct (MISTRAL_API_KEY w) as [[|c' k']|]; cbn [truthy negb];
     try reflexivity|];
    (destruct u as [[|cu u]|]; cbn [truthy];
     [destruct f; reflexivity | reflexivity | destruct f; reflexivity]).
Qed.

(** X7.  Whenever [transcribe_audio] returns an error message, no
    result comes with it and the message is not empty: the test
    [if error:] of [process_audio] takes the failure branch for every
    error that [transcribe_audio] reports. *)
Theorem transcribe_audio_error_is_caught (w : World) (st : session_state)
    (u : option string) (f : option UploadedFile)
    (r : option Transcription) (e : string) :
  transcribe_audio w st u f = (r, Some e) ->
  r = None /\ truthy (Some e) = true.
Proof.
  rewrite transcribe_audio_by_request.
  destruct (request_of w st u f) as [q|].
  - destruct (requests_post w q) as [resp|x].
    + destruct (status_code resp =? 200).
      * destruct (response_json resp) as [res|x]; [discriminate|].
        intros H. injection H as <- <-. now split.
      * intros H. injection H as <- <-. now split.
    + intros H. injection H as <- <-. now split.
  - intros H. injection H as <- <-.
    destruct (Spec.credentials w st); now split.
Qed.

Lemma transcribe_audio_error_is_caught_witness :
  transcribe_audio out_of_service earlier_results
    (audio_url earlier_results) None
  = (None, Some "API Error: 503 - Service Unavailable"%string) /\
  truthy (Some "API Error: 503 - Service Unavailable"%string) = true.
Proof.
  assert (H : transcribe_audio out_of_service earlier_results
                (audio_url earlier_results) None
              = (None, Some "API Error: 503 - Service Unavailable"%string))
    by reflexivity.
  split; [exact H|].
  exact (proj2 (transcribe_audio_error_is_caught _ _ _ _ _ _ H)).
Defined.

(** X8.  One call of [transcribe_audio] consults the provider for at
    most one request: the one that carries the key of the session when
    there is one and the key of the environment otherwise, and the URL
    when a URL is given, the file otherwise.  Two worlds that resolve
    the same credentials and answer this request alike give the same
    outcome; without credentials or without audio the provider is not
    consulted at all. *)
Theorem transcribe_audio_one_request (w w' : World) (st : session_state)
    (u : option string) (f : option UploadedFile) :
  Spec.credentials w st = Spec.credentials w' st ->
  (forall r, request_of w st u f = Some r ->
             requests_post w r = requests_post w' r) ->
  transcribe_audio w st u f = transcribe_audio w' st u f.
Proof.
  intros C R. rewrite !transcribe_audio_by_request.
  assert (Q : request_of w' st u f = request_of w st u f)
    by (unfold request_of; now rewrite C).
  rewrite Q, <- C.
  destruct (request_of w st u f) as [r|]; [|reflexivity].
  now rewrite (R r eq_refl).
Qed.

Lemma transcribe_audio_one_request_witness :
  let st := earlier_results in
  let f := Some {| file_name := "call.mp3"; file_data := "ID3" |} in
  request_of out_of_service st (audio_url st) f
  = Some (PostJson "secret" "https://example.com/call.mp3") /\
  transcribe_audio out_of_service st (audio_url st) f
  = transcribe_audio
      {| MISTRAL_API_KEY := Some "other";
         requests_post := fun r =>
           match r with
           | PostJson _ _ => requests_post out_of_service r
           | PostFiles _ _ => inr "never asked"
           end |} st (audio_url st) f.
Proof.
  intros st f. split; [reflexivity|].
  apply transcribe_audio_one_request; [reflexivity|].
  intros r H. injection H as <-. reflexivity.
Defined.

(** ** [process_audio] and the page around it *)

(** [process_audio] writes neither the key, nor the file, nor the URL,
    on any of its paths. *)
Lemma process_audio_keeps_inputs (w : World) (st : session_state) :
  api_key (fst (process_audio w st)) = api_key st /\
  uploaded_audio (fst (process_audio w st)) = uploaded_audio st /\
  audio_url (fst (process_audio w st)) = audio_url st.
Proof.
  unfold process_audio.
  destruct (match uploaded_audio (set_processing st true) with
            | Some f => _
            | None => _
            end) as [[r e]|]; [|repeat split].
  destruct (truthy e); [repeat split|].
  destruct r as [r|]; [|repeat split].
  destruct (extract_call_metrics _ _); repeat split.
Qed.

(** X9.  [process_audio] changes neither the key, nor the uploaded file,
    nor the URL of the session, and whenever it ends after [st.error] or
    [st.success] (rather than with an exception) the processing flag is
    down again, so the button is enabled for the next attempt. *)
Theorem process_audio_frame (w : World) (st : session_state) :
  api_key (fst (process_audio w st)) = api_key st /\
  uploaded_audio (fst (process_audio w st)) = uploaded_audio st /\
  audio_url (fst (process_audio w st)) = audio_url st /\
  forall msg : string,
    snd (process_audio w st) = Error msg
    \/ snd (process_audio w st) = Success msg ->
    processing (fst (process_audio w st)) = false.
Proof.
  destruct (process_audio_keeps_inputs w st) as (K & U & A).
  repeat split; try assumption. clear K U A.
  unfold process_audio.
  destruct (match uploaded_audio (set_processing st true) with
            | Some f => _
            | None => _
            end) as [[r e]|]; [|reflexivity].
  destruct (truthy e); [reflexivity|].
  destruct r as [r|]; [|intros msg [H|H]; discriminate H].
  destruct (extract_call_metrics _ _);
    [reflexivity | intros msg [H|H]; discriminate H].
Qed.

Lemma process_audio_frame_witness :
  snd (process_audio out_of_service earlier_results)
  = Error "Transcription failed: API Error: 503 - Service Unavailable" /\
  processing (fst (process_audio out_of_service earlier_results)) = false.
Proof.
  assert (H : snd (process_audio out_of_service earlier_results)
              = Error "Transcription failed: API Error: 503 - Service Unavailable")
    by reflexivity.
  split; [exact H|].
  exact (proj2 (proj2 (proj2 (process_audio_frame out_of_service
                                earlier_results))) _ (or_introl H)).
Defined.

(** Line 226 follows line 223 on every path that stores segments. *)
Lemma process_audio_stages_match (w : World) (st : session_state) :
  stages_match st -> stages_match (fst (process_audio w st)).
Proof.
  intros C. unfold process_audio.
  destruct (match uploaded_audio (set_processing st true) with
            | Some f => _
            | None => _
            end) as [[r e]|]; [|exact C].
  destruct (truthy e); [exact C|].
  destruct r as [r|]; [|exact C].
  destruct (extract_call_metrics _ _); right; reflexivity.
Qed.

Lemma main_state (w : World) (i : Inputs) (st : session_state) :
  fst (main w i st)
  = fst (render_audio_upload w (chosen_file i) (typed_url i) (clicked i)
           (fst (render_api_config w (typed_key i) st))).
Proof.
  unfold main. destruct (render_api_config _ _ _) as [st1 box].
  destruct (render_audio_upload _ _ _ _ _) as [st2 o]. reflexivity.
Qed.

Lemma main_stages_match (w : World) (i : Inputs) (st : session_state) :
  stages_match st -> stages_match (fst (main w i st)).
Proof.
  intros C. rewrite main_state.
  set (st1 := fst (render_api_config w (typed_key i) st)).
  assert (C1 : stages_match st1).
  { unfold st1, render_api_config.
    destruct (truthy (Some (typed_key i))); [exact C|].
    destruct (truthy (MISTRAL_API_KEY w)); exact C. }
  clearbody st1. unfold render_audio_upload.
  set (st3 := if truthy (Some (typed_url i)) then _ else _).
  assert (C3 : stages_match st3)
    by (unfold st3; destruct (chosen_file i), (truthy (Some (typed_url i)));
        exact C1).
  clearbody st3.
  destruct (clicked i && negb (processing st3)); [|exact C3].
  destruct (_ || _); [|exact C3].
  destruct (process_audio w st3) as [st' o] eqn:E.
  change st' with (fst (st', o)). rewrite <- E.
  now apply process_audio_stages_match.
Qed.

Lemma reachable_stages (st : session_state) :
  reachable st -> stages_match st.
Proof.
  induction 1 as [|w i st R C].
  - left. split; reflexivity.
  - now apply main_stages_match.
Qed.



Lemma timeline_labels_known (segs : list segment) :
  Forall (fun e => In (tl_Stage e) Spec.stage_labels)
    (timeline_data segs (segment_call segs)).
Proof.
  apply Forall_forall. intros e He. unfold timeline_data in He.
  apply in_map_iff in He. destruct He as ([i s] & <- & Hi).
  apply in_combine_r in Hi. cbn [timeline_entry tl_Stage].
  apply stage_label_known. rewrite <- (segment_call_keys segs).
  apply find_stage_found. now rewrite segment_call_concat.
Qed.

(** X11.  In every session a user can get to, the results page shows
    either one timeline entry per segment held, each labelled with one
    of the five stages, or, when no segments are held, the warning that
    there are none: the label Unknown and the warning about missing
    timeline data are never shown. *)
Theorem reachable_timeline (st : session_state) (r : Results) :
  reachable st -> render_results_tabs st = Some r ->
  match shown_timeline r with
  | inl tl =>
      List.length tl = List.length (segments st) /\
      Forall (fun e => In (tl_Stage e) Spec.stage_labels) tl
  | inr msg => segments st = [] /\ msg = "No segments for timeline"%string
  end.
Proof.
  intros R H. pose proof (reachable_stages st R) as C.
  unfold stages_match in C. unfold render_results_tabs in H.
  destruct (negb (truthy (Some (transcript st)))) eqn:T; [discriminate|].
  injection H as <-. cbn [shown_timeline].
  destruct (segments st) as [|s l] eqn:S; [now split|].
  destruct C as [(E & _)|E]; [discriminate E|].
  rewrite E.
  pose proof (timeline_data_length (s :: l) (segment_call (s :: l))) as L.
  pose proof (timeline_labels_known (s :: l)) as K.
  destruct (timeline_data (s :: l) (segment_call (s :: l))) as [|e tl];
    [discriminate L | now split].
Qed.

Lemma reachable_timeline_witness :
  let i := {| typed_key := "secret"; chosen_file := None;
              typed_url := "https://example.com/call.mp3";
              clicked := true |} in
  let st := fst (main (answering short_call) i initial_state) in
  exists r tl,
    reachable st /\ render_results_tabs st = Some r /\
    shown_timeline r = inl tl /\
    Forall (fun e => In (tl_Stage e) Spec.stage_labels) tl.
Proof.
  intros i st.
  assert (R : reachable st) by (apply reach_run, reach_start).
  destruct (render_results_tabs st) as [r|] eqn:E; [|discriminate E].
  pose proof (reachable_timeline st r R E) as H.
  destruct (shown_timeline r) as [tl|msg] eqn:T.
  - exists r, tl. repeat split; try assumption; apply H.
  - destruct H as [H _]. discriminate H.
Defined.

Lemma message_not_no_audio (e : Spec.TranscriptionError) :
  e <> Spec.NoAudioProvided ->
  Spec.message e <> "No audio provided"%string /\
  Spec.message e <> "Transcription failed: No audio provided"%string.
Proof.
  destruct e; intros N; [now elim N| | |]; split; discriminate.
Qed.

Lemma transcribe_with_source (w : World) (st : session_state) :
  match uploaded_audio st with Some _ => true | None => false end
  || truthy (audio_url st) = true ->
  Spec.transcribe w st <> inl Spec.NoAudioProvided.
Proof.
  unfold Spec.transcribe, Spec.source.
  destruct (uploaded_audio st) as [f|]; [intros _|].
  - destruct (Spec.credentials w st); [|discriminate].
    destruct (requests_post w _) as [resp|]; [|discriminate].
    destruct (status_code resp =? 200)%Z; [|discriminate].
    destruct (response_json resp); discriminate.
  - destruct (audio_url st) as [[|c u]|]; try discriminate. intros _.
    destruct (Spec.credentials w st); [|discriminate].
    destruct (requests_post w _) as [resp|]; [|discriminate].
    destruct (status_code resp =? 200)%Z; [|discriminate].
    destruct (response_json resp); discriminate.
Qed.

(** X12.  The button never shows the error No audio provided: without a
    source it shows its own request to upload a file or give a URL and
    does not call [process_audio], and with a source neither
    [process_audio] nor [transcribe_audio] reaches its own check for
    missing audio. *)
Theorem button_never_no_audio (w : World) (up : option UploadedFile)
    (typed : string) (c : bool) (st : session_state) (msg : string) :
  snd (render_audio_upload w up typed c st) = Some (Error msg) ->
  msg <> "No audio provided"%string /\
  msg <> "Transcription failed: No audio provided"%string.
Proof.
  unfold render_audio_upload.
  set (st2 := if truthy (Some typed) then _ else _). clearbody st2.
  destruct (c && negb (processing st2)); [|discriminate].
  destruct (_ || _) eqn:S.
  - pose proof (transcribe_with_source w st2 S) as N.
    rewrite process_audio_by_contract.
    destruct (Spec.transcribe w st2) as [e|r].
    + cbn [snd]. intros H. injection H as <-.
      apply message_not_no_audio. congruence.
    + cbv zeta. destruct (extract_call_metrics _ _); discriminate.
  - cbn [snd]. intros H. injection H as <-. split; discriminate.
Qed.

Lemma button_never_no_audio_witness :
  snd (render_audio_upload out_of_service None "" true initial_state)
  = Some (Error "Please upload an audio file or provide an audio URL") /\
  "Please upload an audio file or provide an audio URL"%string
  <> "No audio provided"%string.
Proof.
  assert (H : snd (render_audio_upload out_of_service None "" true initial_state)
              = Some (Error "Please upload an audio file or provide an audio URL"))
    by reflexivity.
  split; [exact H|].
  exact (proj1 (button_never_no_audio _ _ _ _ _ _ H)).
Defined.

Lemma run_by_contract (w w' : World) (st : session_state) :
  Spec.transcribe w st = Spec.transcribe w' st ->
  process_audio w st = process_audio w' st.
Proof. intros E. now rewrite !process_audio_by_contract, E. Qed.

Lemma transcribe_file_only (w w' : World) (st : session_state) :
  uploaded_audio st <> None ->
  MISTRAL_API_KEY w = MISTRAL_API_KEY w' ->
  (forall k f, requests_post w (PostFiles k f) = requests_post w' (PostFiles k f)) ->
  Spec.transcribe w st = Spec.transcribe w' st.
Proof.
  intros U K P. unfold Spec.transcribe, Spec.source, Spec.credentials.
  destruct (uploaded_audio st) as [f|]; [|now elim U].
  rewrite <- K.
  destruct (match api_key st with
            | EmptyString => _
            | String c k => _
            end) as [bearer|]; [|reflexivity].
  cbn [Spec.with_bearer]. now rewrite P.
Qed.

(** X13.  An uploaded file is never dropped and always wins: once the
    session holds a file, every later run still holds one, and whatever
    URL is typed the provider is only ever asked about a file, so what
    it would answer for a URL does not matter to the run. *)
Theorem uploaded_file_wins (w w' : World) (i : Inputs) (st : session_state) :
  uploaded_audio st <> None ->
  MISTRAL_API_KEY w = MISTRAL_API_KEY w' ->
  (forall k f, requests_post w (PostFiles k f) = requests_post w' (PostFiles k f)) ->
  uploaded_audio (fst (main w i st)) <> None /\
  main w i st = main w' i st.
Proof.
  intros U K P.
  assert (A : render_api_config w (typed_key i) st
              = render_api_config w' (typed_key i) st)
    by (unfold render_api_config; now rewrite K).
  unfold main. rewrite <- A.
  destruct (render_api_config w (typed_key i) st) as [st1 box] eqn:E1.
  assert (U1 : uploaded_audio st1 <> None).
  { replace st1 with (fst (render_api_config w (typed_key i) st))
      by now rewrite E1.
    unfold render_api_config.
    destruct (truthy (Some (typed_key i))); [exact U|].
    destruct (truthy (MISTRAL_API_KEY w)); exact U. }
  unfold render_audio_upload.
  set (st2 := match chosen_file i with
              | Some f => set_uploaded_audio st1 f
              | None => st1
              end).
  set (st3 := if truthy (Some (typed_url i))
              then set_audio_url st2 (typed_url i) else st2).
  assert (U3 : uploaded_audio st3 <> None).
  { unfold st3, st2.
    destruct (chosen_file i), (truthy (Some (typed_url i)));
      try exact U1; discriminate. }
  clearbody st3.
  destruct (clicked i && negb (processing st3)); [|now split].
  destruct (uploaded_audio st3) as [f|] eqn:F; [|now elim U3].
  cbn [orb].
  assert (T : Spec.transcribe w st3 = Spec.transcribe w' st3)
    by (apply transcribe_file_only; [rewrite F; discriminate | assumption..]).
  rewrite <- (run_by_contract w w' st3 T).
  pose proof (process_audio_keeps_inputs w st3) as (_ & Ku & _).
  destruct (process_audio w st3) as [st' o]. cbn [fst] in *.
  split; [|reflexivity]. rewrite Ku, F. discriminate.
Qed.

Lemma uploaded_file_wins_witness :
  let st := set_uploaded_audio earlier_results
              {| file_name := "call.mp3"; file_data := "ID3" |} in
  let i := {| typed_key := ""; chosen_file := None;
              typed_url := "https://example.com/other.mp3";
              clicked := true |} in
  let w' := {| MISTRAL_API_KEY := None;
               requests_post := fun r =>
                 match r with
                 | PostFiles _ _ => requests_post out_of_service r
                 | PostJson _ _ => inl {| status_code := 200;
                                         response_text := "";
                                         response_json := inl short_call |}
                 end |} in
  uploaded_audio st <> None /\
  main out_of_service i st = main w' i st.
Proof.
  intros st i w'.
  assert (U : uploaded_audio st <> None) by discriminate.
  split; [exact U|].
  refine (proj2 (uploaded_file_wins out_of_service w' i st U eq_refl _)).
  intros k f. reflexivity.
Defined.

Lemma message_missing_credentials (e : Spec.TranscriptionError) :
  Spec.message e = Spec.message Spec.MissingCredentials ->
  e = Spec.MissingCredentials.
Proof. destruct e; [discriminate|reflexivity|discriminate|discriminate]. Qed.

(** X14.  When the analysis of a run fails for a missing API key, the
    configuration panel of the same page shows the warning that no key
    is provided: the failure is never shown beside the box of a saved
    key or of a key from the environment. *)
Theorem missing_key_is_announced (w : World) (i : Inputs) (st : session_state) :
  analysis (snd (main w i st))
  = Some (Error (Spec.message Spec.MissingCredentials)) ->
  key_box (snd (main w i st)) = KeyMissing.
Proof.
  unfold main, render_api_config.
  destruct (truthy (Some (typed_key i))) eqn:Tk;
    [|destruct (truthy (MISTRAL_API_KEY w)) eqn:Te];
    try (destruct (render_audio_upload _ _ _ _ _); reflexivity).
  - (* a key was typed: the credentials resolve *)
    set (st1 := set_api_key st (typed_key i)).
    unfold render_audio_upload.
    set (st3 := if truthy (Some (typed_url i)) then _ else _).
    assert (K : api_key st3 = typed_key i)
      by (unfold st3, st1; destruct (chosen_file i),
            (truthy (Some (typed_url i))); reflexivity).
    clearbody st3.
    destruct (clicked i && negb (processing st3)); [|discriminate].
    destruct (_ || _); [|discriminate].
    rewrite process_audio_by_contract.
    destruct (Spec.transcribe w st3) as [e|r] eqn:T.
    + cbn [snd analysis]. intros H. injection H as H.
      apply message_missing_credentials in H. subst e.
      exfalso. revert T. unfold Spec.transcribe, Spec.credentials.
      rewrite K. destruct (typed_key i); [discriminate Tk|].
      destruct (Spec.source st3); [|discriminate].
      destruct (requests_post w _) as [resp|]; [|discriminate].
      destruct (status_code resp =? 200)%Z; [|discriminate].
      destruct (response_json resp); discriminate.
    + cbv zeta. destruct (extract_call_metrics _ _); discriminate.
  - (* the environment has a key: the credentials resolve *)
    unfold render_audio_upload.
    set (st3 := if truthy (Some (typed_url i)) then _ else _). clearbody st3.
    destruct (clicked i && negb (processing st3)); [|discriminate].
    destruct (_ || _); [|discriminate].
    rewrite process_audio_by_contract.
    destruct (Spec.transcribe w st3) as [e|r] eqn:T.
    + cbn [snd analysis]. intros H. injection H as H.
      apply message_missing_credentials in H. subst e.
      exfalso. revert T. unfold Spec.transcribe, Spec.credentials.
      destruct (MISTRAL_API_KEY w) as [[|c k]|]; try discriminate Te.
      destruct (Spec.source st3); [|discriminate].
      destruct (api_key st3);
        (destruct (requests_post w _) as [resp|]; [|discriminate]);
        (destruct (status_code resp =? 200)%Z; [|discriminate]);
        destruct (response_json resp); discriminate.
    + cbv zeta. destruct (extract_call_metrics _ _); discriminate.
Qed.

Lemma missing_key_is_announced_witness :
  let i := {| typed_key := ""; chosen_file := None;
              typed_url := "https://example.com/call.mp3";
              clicked := true |} in
  analysis (snd (main out_of_service i initial_state))
  = Some (Error (Spec.message Spec.MissingCredentials)) /\
  key_box (snd (main out_of_service i initial_state)) = KeyMissing.
Proof.
  intros i.
  assert (H : analysis (snd (main out_of_service i initial_state))
              = Some (Error (Spec.message Spec.MissingCredentials)))
    by reflexivity.
  split; [exact H|].
  exact (missing_key_is_announced out_of_service i initial_state H).
Defined.



(** X16.  A run only ever overwrites the key, the file and the URL of
    the session with what the user entered, and never clears them: an
    empty key field, an empty URL field or an empty uploader leave the
    earlier value in place, and the analysis itself touches none of the
    three. *)
Theorem inputs_are_sticky (w : World) (i : Inputs) (st : session_state) :
  api_key (fst (main w i st))
  = (if truthy (Some (typed_key i)) then typed_key i else api_key st) /\
  uploaded_audio (fst (main w i st))
  = match chosen_file i with
    | Some f => Some f
    | None => uploaded_audio st
    end /\
  audio_url (fst (main w i st))
  = (if truthy (Some (typed_url i)) then Some (typed_url i) else audio_url st).
Proof.
  rewrite main_state. unfold render_audio_upload.
  set (st1 := fst (render_api_config w (typed_key i) st)).
  assert (K1 : api_key st1
               = if truthy (Some (typed_key i)) then typed_key i else api_key st).
  { unfold st1, render_api_config.
    destruct (truthy (Some (typed_key i))); [reflexivity|].
    destruct (truthy (MISTRAL_API_KEY w)); reflexivity. }
  assert (U1 : uploaded_audio st1 = uploaded_audio st /\
               audio_url st1 = audio_url st).
  { unfold st1, render_api_config.
    destruct (truthy (Some (typed_key i))); [now split|].
    destruct (truthy (MISTRAL_API_KEY w)); now split. }
  destruct U1 as [U1 A1]. clearbody st1.
  set (st3 := if truthy (Some (typed_url i)) then _ else _).
  assert (E3 : api_key st3 = api_key st1 /\
               uploaded_audio st3
               = match chosen_file i with
                 | Some f => Some f
                 | None => uploaded_audio st1
                 end /\
               audio_url st3
               = if truthy (Some (typed_url i))
                 then Some (typed_url i) else audio_url st1).
  { unfold st3. destruct (chosen_file i), (truthy (Some (typed_url i)));
      repeat split. }
  destruct E3 as (K3 & U3 & A3). clearbody st3.
  rewrite <- K1, <- U1, <- A1, <- K3, <- U3, <- A3.
  destruct (clicked i && negb (processing st3)); [|repeat split].
  destruct (_ || _); [|repeat split].
  pose proof (process_audio_keeps_inputs w st3) as (Hk & Hu & Ha).
  destruct (process_audio w st3) as [st' o]. cbn [fst] in *. now repeat split.
Qed.

Lemma concat_two_nonempty (sep x y : string) (l : list string) :
  String.concat (String " " sep) (x :: y :: l) <> ""%string.
Proof.
  cbn [String.concat]. destruct x; discriminate.
Qed.

(** X17.  A stage column falls back to No content only for a stage
    without segments or with a single segment whose text is empty: the
    joined text of a stage is empty in exactly these cases (two segments
    already give the space that joins them). *)
Theorem stage_text_empty_iff (d : StageMap) (stage : string) :
  stage_text d stage = ""%string
  <-> match dict_get d stage with Some l => l | None => [] end = []
      \/ exists s,
           match dict_get d stage with Some l => l | None => [] end = [s]
           /\ seg_text (value s) = ""%string.
Proof.
  unfold stage_text.
  destruct (dict_get d stage) as [[|s [|s' l]]|].
  - split; [now left | reflexivity].
  - cbn [map String.concat]. split.
    + intros H. right. eauto.
    + intros [H|(x & H & T)]; [discriminate|]. now injection H as ->.
  - split.
    + intros H. exfalso. revert H. cbn [map]. apply concat_two_nonempty.
    + intros [H|(x & H & _)]; discriminate.
  - split; [now left | reflexivity].
Qed.
